(** * OpenAPIGenerator: type-to-schema inference and route assembly

    A shallow embedding of [src/index.ts] (class [OpenAPIGenerator]) and of
    the part of [src/types.ts] it consumes.  JavaScript objects used as maps
    are finite maps, optional keys are [option] fields, methods of the class
    run in a small state-and-exception monad over the generator. *)

From Stdlib Require Import Ascii String ZArith.
From stdpp Require Import base option list strings gmap fin_maps pretty.

Open Scope string_scope.

(* Handles and schema objects are nested through [option], [list] and [gmap];
   the induction principles used below are stated by hand. *)
Set Warnings "-register-all,-clear-no-such-hyp".

(** ** Values shared by the type checker and the schema objects *)

(** What [Type.getLiteralValue()] returns: a string or a number (numeric
    literals are kept to integers), or [undefined] ([None] at the use site). *)
Inductive LiteralValue :=
  | LitString (s : string)
  | LitNumber (n : Z).

(** ** Type handles (ts-morph [Type])

    The generator only observes a type through the predicates and accessors
    below, so a handle is the finite tree of their answers.  The answers are
    independent of one another, as they are for the caller: an array type
    also answers [isObject()], and [isEnum()] is the type checker's verdict
    (an enum declaration), not a property of the union members.

    A property symbol [prop] is the triple of [prop.getName()], whether
    [prop.getValueDeclaration()] answers a node, and the type of the
    property, which is what [prop.getTypeAtLocation(node)] answers at that
    node.  The properties of a mapped type ([Record<K, T>], [Partial<T>])
    have no value declaration; [getTypeAtLocation(undefined)] throws. *)
Inductive Type_ := mkType {
  isArray : bool;
  isEnum : bool;
  isObject : bool;
  isNumberLiteral : bool;
  isNumber : bool;
  isStringLiteral : bool;
  isString : bool;
  isBooleanLiteral : bool;
  isBoolean : bool;
  isNull : bool;
  isUndefined : bool;
  getArrayElementType : option Type_;
  getUnionTypes : list Type_;
  getLiteralValue : option LiteralValue;
  getProperties : list (string * bool * Type_)
}.

(* prop.getName() *)
Definition getName (prop : string * bool * Type_) : string := prop.1.1.

(* prop.getValueDeclaration() answers a node *)
Definition hasValueDeclaration (prop : string * bool * Type_) : bool := prop.1.2.

(* the type of the property *)
Definition typeOfProperty (prop : string * bool * Type_) : Type_ := prop.2.

(** ** JavaScript objects used as maps

    A finite map holds the own properties of a plain object.  A read
    [obj[key]] that finds no own property goes on to [Object.prototype], and
    an assignment under ["__proto__"] reaches the setter inherited from
    there, which replaces the prototype of the object and adds no
    property. *)

(* the names every object inherits from Object.prototype; under "__proto__"
   the read answers Object.prototype itself, under the others a function *)
Definition objectPrototypeNames : list string :=
  ["constructor"; "__defineGetter__"; "__defineSetter__"; "hasOwnProperty";
   "__lookupGetter__"; "__lookupSetter__"; "isPrototypeOf";
   "propertyIsEnumerable"; "toString"; "valueOf"; "__proto__";
   "toLocaleString"].

(* obj[key] = value, for a value that is an object *)
Definition assign {A} (key : string) (value : A) (obj : gmap string A)
    : gmap string A :=
  if decide (key = "__proto__") then
    match obj !! key with
    | Some _ => <[key := value]> obj   (* an own property is overwritten *)
    | None => obj                      (* the inherited setter is called *)
    end
  else <[key := value]> obj.

(** ** Schema objects (openapi3-ts [SchemaObject]): every key is optional. *)
Inductive SchemaObject := mkSchema {
  type : option string;
  items : option SchemaObject;
  enum : option (list (option LiteralValue));
  properties : option (gmap string SchemaObject);
  minimum : option Z;
  maximum : option Z;
  format : option string;
  pattern : option string
}.

(** The fragments the generator builds. *)
Definition emptySchema : SchemaObject :=
  mkSchema None None None None None None None None.

(* { type: t } *)
Definition typeSchema (t : string) : SchemaObject :=
  mkSchema (Some t) None None None None None None None.

(* { type: 'array', items } *)
Definition arraySchema (itemSchema : SchemaObject) : SchemaObject :=
  mkSchema (Some "array") (Some itemSchema) None None None None None None.

(* { type: 'string', enum: values } *)
Definition enumSchema (values : list (option LiteralValue)) : SchemaObject :=
  mkSchema (Some "string") None (Some values) None None None None None.

(* { type: 'object', properties } *)
Definition objectSchema (props : gmap string SchemaObject) : SchemaObject :=
  mkSchema (Some "object") None None (Some props) None None None None.

(** ** Declaration sources (ts-morph [SourceFile], [TypeAliasDeclaration]) *)

Inductive Exception :=
  | Error (message : string)   (* throw new Error(message) *)
  | TypeError.                 (* a property read or a call on undefined *)

Inductive Completion (A : Type) :=
  | Return (a : A)
  | Throw (e : Exception).
Arguments Return {A} a.
Arguments Throw {A} e.

Record TypeAliasDeclaration := { getType : Type_ }.

(** [getTypeAlias name] answers a declaration, [undefined], or throws. *)
Record SourceFile := {
  getTypeAlias : string → Completion (option TypeAliasDeclaration)
}.

(** ** Route descriptions ([src/types.ts]) *)

Inductive Method := get | post | put | delete | patch.

Definition methodKey (m : Method) : string :=
  match m with
  | get => "get" | post => "post" | put => "put"
  | delete => "delete" | patch => "patch"
  end.

Record ResponseDefinition := {
  statusCode : Z;
  rd_description : string;
  rd_type : option string
}.

Record PathParameterDefinition := { ppd_description : option string }.

Record SecurityScheme := {
  ss_type : string;
  ss_description : option string;
  ss_name : option string;
  ss_in : option string;
  ss_scheme : option string;
  ss_bearerFormat : option string;
  ss_openIdConnectUrl : option string
}.

(* Omit<QueryParameter, 'name'> *)
Record QueryParameter := {
  qp_required : bool;
  qp_schema : SchemaObject;
  qp_description : option string
}.

Record HeaderDefinition := {
  hd_name : string;
  hd_required : option bool;
  hd_schema : SchemaObject;
  hd_description : option string
}.

Record ServerVariable := {
  sv_default : string;
  sv_enum : option (list string);
  sv_description : option string
}.

Record ServerConfiguration := {
  url : string;
  sc_description : option string;
  variables : option (gmap string ServerVariable)
}.

Record RouteHeaders := {
  request : option (list HeaderDefinition);
  response : option (list HeaderDefinition)
}.

Record RouteDefinition := {
  path : string;
  method : Method;
  description : option string;
  requestType : option string;
  parameters : option (gmap string PathParameterDefinition);
  (* Object.entries(route.queryParameters), in enumeration order *)
  queryParameters : option (list (string * QueryParameter));
  headers : option RouteHeaders;
  security : option (list string);
  responses : list ResponseDefinition
}.

(** ** The document under construction (openapi3-ts [OpenAPIObject]) *)

Record ParameterObject := {
  name : string;
  in_ : string;
  required : bool;
  schema : SchemaObject;
  po_description : option string
}.

Record HeaderObject := {
  ho_description : option string;
  ho_schema : SchemaObject;
  ho_required : bool
}.

Record ResponseObject := {
  ro_description : string;
  (* content['application/json'].schema *)
  ro_schema : SchemaObject;
  ro_headers : option (gmap string HeaderObject)
}.

Record OperationObject := {
  op_description : string;
  op_responses : gmap string ResponseObject;
  op_parameters : option (list ParameterObject);
  op_security : option (list (gmap string (list string)));
  (* requestBody.content['application/json'].schema *)
  op_requestBody : option SchemaObject
}.

Record ComponentsObject := {
  schemas : option (gmap string SchemaObject);
  securitySchemes : option (gmap string SecurityScheme)
}.

Record InfoObject := { title : string; version : string }.

Record OpenAPIObject := {
  openapi : string;
  info : InfoObject;
  (* path -> method -> operation *)
  paths : gmap string (gmap string OperationObject);
  components : option ComponentsObject;
  servers : option (list ServerConfiguration)
}.

(* 'get' | 'post' | 'put' | 'delete' | 'patch' as a Method *)
Definition methodOfKey (key : string) : option Method :=
  if decide (key = "get") then Some get
  else if decide (key = "post") then Some post
  else if decide (key = "put") then Some put
  else if decide (key = "delete") then Some delete
  else if decide (key = "patch") then Some patch
  else None.

(** The generator, with the one object outside it that its methods reach:
    [addRoute] under the path ["__proto__"] takes [Object.prototype] for the
    path item and stores the operation there, under the name of the method,
    where every later read [obj[key]] of a missing property finds it. *)
Record OpenAPIGenerator := {
  spec : OpenAPIObject;
  (* this.project.getSourceFiles() *)
  project : list SourceFile;
  (* the operations stored on Object.prototype *)
  Object_prototype : Method → option OperationObject
}.

(* Object.prototype[key], when an operation has been stored under the key *)
Definition storedOperation (g : OpenAPIGenerator) (key : string)
    : option OperationObject :=
  m ← methodOfKey key; Object_prototype g m.

(* obj[key] is found on Object.prototype when obj has no such property; what
   is found is an object or a function, hence truthy *)
Definition inherited (g : OpenAPIGenerator) (key : string) : bool :=
  bool_decide (key ∈ objectPrototypeNames)
  || bool_decide (is_Some (storedOperation g key)).

(** ** Methods of the class: state passing with exceptions

    A method takes the generator ([this]) and completes normally or by a
    throw; either way the generator it leaves behind is returned, since
    mutations made before a throw persist. *)
Definition M (A : Type) : Type :=
  OpenAPIGenerator → Completion A * OpenAPIGenerator.

Definition ret {A} (a : A) : M A := λ g, (Return a, g).

Definition throw {A} (e : Exception) : M A := λ g, (Throw e, g).

Definition bind {A B} (m : M A) (k : A → M B) : M B :=
  λ g, match m g with
       | (Return a, g') => k a g'
       | (Throw e, g') => (Throw e, g')
       end.

Definition this : M OpenAPIGenerator := λ g, (Return g, g).

Definition setSpec (s : OpenAPIObject) : M unit :=
  λ g, (Return (), {| spec := s; project := project g;
                      Object_prototype := Object_prototype g |}).

(* Object.prototype[method] = operation *)
Definition storeOnObjectPrototype (m : Method) (operation : OperationObject)
    : M unit :=
  λ g, (Return (),
        {| spec := spec g; project := project g;
           Object_prototype :=
             λ m', if decide (methodKey m' = methodKey m) then Some operation
                   else Object_prototype g m' |}).

Declare Scope method_scope.
Delimit Scope method_scope with method.
Notation "'let*' x := m 'in' k" := (bind m (λ x, k))
  (at level 10, x name, m at level 100, k at level 200) : method_scope.
Notation "m ;;; k" := (bind m (λ _, k))
  (at level 100, k at level 200, right associativity) : method_scope.
Open Scope method_scope.

(* arr.forEach(x => body(x)) where the body may throw *)
Fixpoint forEach {A} (body : A → M unit) (arr : list A) : M unit :=
  match arr with
  | [] => ret ()
  | x :: rest => body x ;;; forEach body rest
  end.

(** *** Schema inference *)

(* private getTypeString(type: any): SchemaObjectType *)
Definition getTypeString (t : Type_) : string :=
  if isNumberLiteral t || isNumber t then "number"
  else if isStringLiteral t || isString t then "string"
  else if isBooleanLiteral t || isBoolean t then "boolean"
  else if isArray t then "array"
  else if isObject t then "object"
  else if isNull t || isUndefined t then "null"
  else "string".

(* type.getUnionTypes().map(t => t.getLiteralValue()) *)
Definition unionLiteralValues (t : Type_) : list (option LiteralValue) :=
  getLiteralValue <$> getUnionTypes t.

(* the body of the forEach over type.getProperties(): the schema stored
   under the property's name *)
Definition propertySchema (propType : Type_) : SchemaObject :=
  if isEnum propType then enumSchema (unionLiteralValues propType)
  else typeSchema (getTypeString propType).

(* type.getProperties().forEach(prop => { ... }): the object [properties]
   when the loop ends, or the TypeError of the first property for which
   prop.getTypeAtLocation(prop.getValueDeclaration()) is called on
   undefined *)
Fixpoint forEachProperty (props : list (string * bool * Type_))
    (properties : gmap string SchemaObject)
    : Completion (gmap string SchemaObject) :=
  match props with
  | [] => Return properties
  | prop :: rest =>
      if hasValueDeclaration prop then
        forEachProperty rest
          (assign (getName prop) (propertySchema (typeOfProperty prop))
                  properties)
      else Throw TypeError
  end.

(* the object [properties] after a loop in which no iteration throws *)
Definition collectProperties (props : list (string * bool * Type_))
    : gmap string SchemaObject :=
  foldl (λ acc prop,
           assign (getName prop) (propertySchema (typeOfProperty prop)) acc)
        ∅ props.

(* private getSchemaForType(type: any): SchemaObject *)
Fixpoint getSchemaForType (t : Type_) : M SchemaObject :=
  if isArray t then
    match getArrayElementType t with
    | Some elementType =>
        let* itemSchema := getSchemaForType elementType in
        ret (arraySchema itemSchema)
    | None => throw TypeError   (* undefined.isArray() *)
    end
  else if isEnum t then
    ret (enumSchema (unionLiteralValues t))
  else if isObject t then
    match forEachProperty (getProperties t) ∅ with
    | Return properties => ret (objectSchema properties)
    | Throw e => throw e
    end
  else
    ret (typeSchema (getTypeString t)).

(* this.getSchemaForType(x) where x is the answer of getArrayElementType() *)
Definition getSchemaForElement (elementType : option Type_) : M SchemaObject :=
  match elementType with
  | Some t => getSchemaForType t
  | None => throw TypeError
  end.

(** *** Resolution by name and registration *)

(* the for-loop of extractTypeSchema: the value of typeAlias when it ends *)
Fixpoint findTypeAlias (typeName : string) (sourceFiles : list SourceFile)
    : option TypeAliasDeclaration :=
  match sourceFiles with
  | [] => None
  | sourceFile :: rest =>
      match getTypeAlias sourceFile typeName with
      | Return (Some typeAlias) => Some typeAlias        (* break *)
      | Return None => findTypeAlias typeName rest
      | Throw _ => findTypeAlias typeName rest           (* catch: continue *)
      end
  end.

Definition notFoundMessage (typeName : string) : string :=
  "Type '" ++ typeName ++ "' not found in any source files".

(* if (this.spec.components?.schemas) this.spec.components.schemas[typeName] = schema *)
Definition registerSchema (typeName : string) (s : SchemaObject)
    (doc : OpenAPIObject) : OpenAPIObject :=
  match components doc with
  | Some c =>
      match schemas c with
      | Some reg =>
          {| openapi := openapi doc; info := info doc; paths := paths doc;
             components := Some {| schemas := Some (assign typeName s reg);
                                   securitySchemes := securitySchemes c |};
             servers := servers doc |}
      | None => doc
      end
  | None => doc
  end.

(* private extractTypeSchema(typeName: string): SchemaObject *)
Definition extractTypeSchema (typeName : string) : M SchemaObject :=
  let* g := this in
  match findTypeAlias typeName (project g) with
  | None => throw (Error (notFoundMessage typeName))
  | Some typeAlias =>
      let tsType := getType typeAlias in
      let* s := getSchemaForType tsType in
      let* g := this in
      setSpec (registerSchema typeName s (spec g)) ;;;
      if isArray tsType then
        let* itemSchema := getSchemaForElement (getArrayElementType tsType) in
        ret (arraySchema itemSchema)
      else ret s
  end.

(** *** Route assembly *)

(* str.slice(1, -1) *)
Definition slice_1_m1 (str : string) : string :=
  match str with
  | "" => ""
  | String _ rest => String.substring 0 (String.length rest - 1) rest
  end.

(** [path.match(/{([^}]+)}/g)]: the matched substrings from left to right.
    A match starts at a ['{'], takes every following character other than
    ['}'] (at least one) and ends at the first ['}'].  [inside] holds, in
    reverse, the characters read since the ['{'] of the attempt under way. *)
Fixpoint matchPlaceholders (inside : option (list ascii)) (str : string)
    : list string :=
  match str with
  | "" => []
  | String c rest =>
      match inside with
      | None =>
          if decide (c = "{"%char) then matchPlaceholders (Some []) rest
          else matchPlaceholders None rest
      | Some [] =>
          (* "{}" does not match; the next attempt starts after the '{' *)
          if decide (c = "}"%char) then matchPlaceholders None rest
          else matchPlaceholders (Some [c]) rest
      | Some seen =>
          if decide (c = "}"%char) then
            String "{"%char (string_of_list_ascii (rev seen) ++ "}")
              :: matchPlaceholders None rest
          else matchPlaceholders (Some (c :: seen)) rest
      end
  end.

(* private extractPathParameters(path: string): string[] *)
Definition extractPathParameters (path : string) : list string :=
  slice_1_m1 <$> matchPlaceholders None path.

(* a || b on strings: the empty string and undefined are falsy *)
Definition orString (a : option string) (b : string) : string :=
  match a with
  | Some "" | None => b
  | Some s => s
  end.

(* if (x) on an optional string *)
Definition truthy (a : option string) : option string :=
  match a with
  | Some "" | None => None
  | Some s => Some s
  end.

(* route.parameters?.[paramName]?.description: the definition the route has
   under the name or, when it has none, what the read finds on
   Object.prototype: an operation stored there, with its description, or a
   function, which has no description *)
Definition parameterDescription (g : OpenAPIGenerator) (route : RouteDefinition)
    (paramName : string) : option string :=
  p ← parameters route;
  match p !! paramName with
  | Some d => ppd_description d
  | None => op_description <$> storedOperation g paramName
  end.

(* the object pushed for one path parameter *)
Definition pathParameter (g : OpenAPIGenerator) (route : RouteDefinition)
    (paramName : string) : ParameterObject :=
  {| name := paramName;
     in_ := "path";
     required := true;
     schema := typeSchema "string";
     po_description :=
       Some (orString (parameterDescription g route paramName)
                      (paramName ++ " parameter")) |}.

Definition queryParameter (entry : string * QueryParameter) : ParameterObject :=
  {| name := entry.1;
     in_ := "query";
     required := qp_required entry.2;
     schema := qp_schema entry.2;
     po_description := qp_description entry.2 |}.

Definition headerParameter (header : HeaderDefinition) : ParameterObject :=
  {| name := hd_name header;
     in_ := "header";
     required := default false (hd_required header);
     schema := hd_schema header;
     po_description := hd_description header |}.

(* the array [parameters] after the three pushes *)
Definition routeParameters (g : OpenAPIGenerator) (route : RouteDefinition)
    : list ParameterObject :=
  (pathParameter g route <$> extractPathParameters (path route))
  ++ (match queryParameters route with
      | Some entries => queryParameter <$> entries
      | None => []
      end)
  ++ (match h ← headers route; request h with
      | Some hs => headerParameter <$> hs
      | None => []
      end).

(* headers[header.name] = {...} for each response header, in order *)
Definition responseHeaders (hs : list HeaderDefinition)
    : gmap string HeaderObject :=
  foldl (λ acc header,
           assign (hd_name header)
                  {| ho_description := hd_description header;
                     ho_schema := hd_schema header;
                     ho_required := default false (hd_required header) |}
                  acc)
        ∅ hs.

(* the integers that a JavaScript number holds exactly *)
Definition safeInteger (n : Z) : Prop := (Z.abs n < 2 ^ 53)%Z.

(* response.statusCode.toString() for a status code that is a safe integer:
   its decimal digits.  Status codes are taken among the integers; what
   toString() answers for the other numbers (a fraction, NaN, the exponent
   notation from 10^21 on) is not modelled. *)
Definition numberToString (n : Z) : string := pretty n.

(* one iteration of route.responses.forEach: the entry added to
   operation.responses *)
Definition addResponse (route : RouteDefinition)
    (acc : gmap string ResponseObject) (resp : ResponseDefinition)
    : M (gmap string ResponseObject) :=
  let* s := match truthy (rd_type resp) with
            | Some typeName => extractTypeSchema typeName
            | None => ret emptySchema
            end in
  ret (<[numberToString (statusCode resp) :=
          {| ro_description := rd_description resp;
             ro_schema := s;
             ro_headers := responseHeaders <$> (h ← headers route; response h) |}]>
        acc).

Fixpoint addResponses (route : RouteDefinition)
    (acc : gmap string ResponseObject) (rs : list ResponseDefinition)
    : M (gmap string ResponseObject) :=
  match rs with
  | [] => ret acc
  | r :: rest => let* acc' := addResponse route acc r in
                 addResponses route acc' rest
  end.

Definition setPaths (p : gmap string (gmap string OperationObject))
    (doc : OpenAPIObject) : OpenAPIObject :=
  {| openapi := openapi doc; info := info doc; paths := p;
     components := components doc; servers := servers doc |}.

(* route.security.map(scheme => ({ [scheme]: [] })) *)
Definition securityRequirements (names : list string)
    : list (gmap string (list string)) :=
  (λ scheme : string, ({[scheme := []]} : gmap string (list string))) <$> names.

(* addRoute(route: RouteDefinition): this *)
Definition addRoute (route : RouteDefinition) : M unit :=
  (* create path if it doesn't exist: this.spec.paths[route.path] is also
     truthy when the name is inherited from Object.prototype *)
  let* g := this in
  (match paths (spec g) !! path route with
   | Some _ => ret ()
   | None =>
       if inherited g (path route) then ret ()
       else setSpec (setPaths (<[path route := ∅]> (paths (spec g))) (spec g))
   end) ;;;
  let* g := this in
  let params := routeParameters g route in
  let* body := match truthy (requestType route) with
               | Some typeName => let* s := extractTypeSchema typeName in
                                  ret (Some s)
               | None => ret None
               end in
  let* resps := addResponses route ∅ (responses route) in
  let operation :=
    {| op_description := orString (description route) "";
       op_responses := resps;
       op_parameters := match params with [] => None | _ => Some params end;
       op_security := securityRequirements <$> security route;
       op_requestBody := body |} in
  (* pathItem[route.method] = operation.  A path item that is not a
     property of paths is the object found on Object.prototype: under
     "__proto__" it is Object.prototype itself, which receives the operation;
     otherwise it is a function or an operation stored there, and the
     property it receives is read by nothing *)
  let* g := this in
  match paths (spec g) !! path route with
  | Some pathItem =>
      setSpec (setPaths (<[path route :=
                             <[methodKey (method route) := operation]> pathItem]>
                           (paths (spec g)))
                        (spec g))
  | None =>
      if decide (path route = "__proto__")
      then storeOnObjectPrototype (method route) operation
      else ret ()
  end.

(* addRoutes(routes: RouteDefinition[]): void *)
Definition addRoutes (routes : list RouteDefinition) : M unit :=
  forEach addRoute routes.

(* addSecurityScheme(name, scheme): this *)
Definition addSecurityScheme (schemeName : string) (scheme : SecurityScheme)
    : M unit :=
  let* g := this in
  let doc := spec g in
  let c := default {| schemas := Some ∅; securitySchemes := Some ∅ |}
                   (components doc) in
  let ss := default ∅ (securitySchemes c) in
  setSpec {| openapi := openapi doc; info := info doc; paths := paths doc;
             components := Some {| schemas := schemas c;
                                   securitySchemes := Some (assign schemeName scheme ss) |};
             servers := servers doc |}.

(* addServer(server): this *)
Definition addServer (server : ServerConfiguration) : M unit :=
  let* g := this in
  let doc := spec g in
  setSpec {| openapi := openapi doc; info := info doc; paths := paths doc;
             components := components doc;
             servers := Some (default [] (servers doc) ++ [server])%list |}.

(* generateSpec(): OpenAPIObject *)
Definition generateSpec : M OpenAPIObject :=
  let* g := this in ret (spec g).

(* the document set up by the constructor, with title and version applied
   by initialize when they are non-empty *)
Definition initialSpec (t v : option string) : OpenAPIObject :=
  {| openapi := "3.0.0";
     info := {| title := orString t "Lambda API";
                version := orString v "1.0.0" |};
     paths := ∅;
     components := Some {| schemas := Some ∅; securitySchemes := Some ∅ |};
     servers := Some [] |}.

Definition create (t v : option string) (sourceFiles : list SourceFile)
    : OpenAPIGenerator :=
  {| spec := initialSpec t v; project := sourceFiles;
     Object_prototype := λ _, None |}.

(** ** Handles and sources used in the examples

    The answers ts-morph gives for the types of the test fixture
    ([User], [UserList], [UserType], ...). *)

Definition primitiveType (number_ string_ boolean_ null_ undefined_ : bool)
    : Type_ :=
  mkType false false false false number_ false string_ false boolean_
         null_ undefined_ None [] None [].

Definition numberType : Type_ := primitiveType true false false false false.
Definition stringType : Type_ := primitiveType false true false false false.
Definition booleanType : Type_ := primitiveType false false true false false.
Definition nullType : Type_ := primitiveType false false false true false.

(* a type for which every predicate answers false, such as [unknown] *)
Definition unknownType : Type_ := primitiveType false false false false false.

(* the literal type "s" *)
Definition stringLiteralType (s : string) : Type_ :=
  mkType false false false false false true false false false false false
         None [] (Some (LitString s)) [].

(* { name1: T1; ...; nameN: TN }: every property has its declaration *)
Definition objectType (props : list (string * Type_)) : Type_ :=
  mkType false false true false false false false false false false false
         None [] None ((λ p, (p.1, true, p.2)) <$> props).

(* a mapped type with the given properties, such as Record<"a" | "b", T> or
   Partial<T>: an object type whose properties have no value declaration *)
Definition mappedType (props : list (string * Type_)) : Type_ :=
  mkType false false true false false false false false false false false
         None [] None ((λ p, (p.1, false, p.2)) <$> props).

(* T[]: an array is also an object for isObject(); its own members
   (length, push, ...) are never enumerated by the generator *)
Definition arrayType (elementType : Type_) : Type_ :=
  mkType true false true false false false false false false false false
         (Some elementType) [] None [].

(* enum E { A = "a", ... }: the union of its member literal types; an enum
   with one member is the literal type of that member, for which isEnum()
   answers false *)
Definition enumType (members : list string) : Type_ :=
  match members with
  | [member] => stringLiteralType member
  | _ =>
      mkType false true false false false false false false false false false
             None (stringLiteralType <$> members) None []
  end.

(* "a" | "b" | ... written as a union of literals: not an enum declaration,
   so isEnum() answers false *)
Definition literalUnionType (members : list string) : Type_ :=
  mkType false false false false false false false false false false false
         None (stringLiteralType <$> members) None [].

Definition UserType : Type_ := enumType ["admin"; "user"; "trial"; "guest"].

Definition User : Type_ :=
  objectType [("id", numberType); ("name", stringType);
              ("email", stringType); ("type", UserType)].

Definition UserList : Type_ := arrayType User.

Definition Item : Type_ := objectType [("id", numberType); ("name", stringType)].

Definition List_ : Type_ := arrayType Item.


(* Record<"a", Item> *)
Definition ItemRecord : Type_ := mappedType [("a", Item)].

(* Record<"a" | "b", number> *)
Definition NumberRecord : Type_ :=
  mappedType [("a", numberType); ("b", numberType)].

(* a source file declaring the given aliases; getTypeAlias answers the
   first declaration with the name *)
Definition sourceFileOf (aliases : list (string * Type_)) : SourceFile :=
  {| getTypeAlias := λ typeName,
       Return ((λ a, {| getType := a.2 |})
                 <$> List.find (λ a, bool_decide (a.1 = typeName)) aliases) |}.

(* a source file on which every lookup throws *)
Definition unreadableSourceFile : SourceFile :=
  {| getTypeAlias := λ _, Throw (Error "unreadable") |}.

(** A source "declares" a name when the lookup answers a declaration. *)
Definition declares (sourceFile : SourceFile) (typeName : string) : Prop :=
  ∃ typeAlias, getTypeAlias sourceFile typeName = Return (Some typeAlias).

(** The handles on which the walk of [getSchemaForType] meets no call on
    undefined: an array on the walk has its element type, and an object type
    reached by the walk has a value declaration for each of its
    properties. *)
Fixpoint inferable (t : Type_) : bool :=
  if isArray t then
    match getArrayElementType t with
    | Some elementType => inferable elementType
    | None => false
    end
  else if isEnum t then true
  else if isObject t then forallb hasValueDeclaration (getProperties t)
  else true.

(** A union exclusively composed of the string literals [values], in
    declaration order. *)
Definition stringLiteralUnion (t : Type_) (values : list string) : Prop :=
  isArray t = false
  ∧ Forall (λ m, isStringLiteral m = true) (getUnionTypes t)
  ∧ getLiteralValue <$> getUnionTypes t = (λ v, Some (LitString v)) <$> values.

(** A type that matches none of the cases of the inference. *)
Definition unmatched (t : Type_) : Prop :=
  isArray t = false ∧ isEnum t = false ∧ isObject t = false
  ∧ isNumberLiteral t = false ∧ isNumber t = false
  ∧ isStringLiteral t = false ∧ isString t = false
  ∧ isBooleanLiteral t = false ∧ isBoolean t = false
  ∧ isNull t = false ∧ isUndefined t = false.


(** The registry entry of a name in the document of a generator. *)
Definition registryEntry (g : OpenAPIGenerator) (typeName : string)
    : option SchemaObject :=
  c ← components (spec g); reg ← schemas c; reg !! typeName.

(** The operation stored for a route. *)
Definition operationOf (g : OpenAPIGenerator) (route : RouteDefinition)
    : option OperationObject :=
  item ← paths (spec g) !! path route; item !! methodKey (method route).

(** The type names a route refers to, in the order [addRoute] resolves them:
    the request type, then the type of each response. *)
Definition referencedTypes (route : RouteDefinition) : list string :=
  (option_list (truthy (requestType route))
   ++ omap (λ r, truthy (rd_type r)) (responses route))%list.

(* two sources declaring [T] with different shapes *)
Definition sourceA : SourceFile := sourceFileOf [("T", Item)].
Definition sourceB : SourceFile := sourceFileOf [("T", User); ("User", User)].

(* the schema of [Item] *)
Definition itemSchema : SchemaObject :=
  objectSchema (<["name" := typeSchema "string"]>
                  (<["id" := typeSchema "number"]> ∅)).

(* a generator whose project declares [List = Item[]] *)
Definition listGenerator : OpenAPIGenerator :=
  create None None [sourceFileOf [("Item", Item); ("List", List_)]].

(** A method that leaves the project of the generator as it was. *)
Definition preservesProject {A} (m : M A) : Prop :=
  ∀ g, project (m g).2 = project g.

(** No character of [s] is [c]. *)
Definition avoids (c : ascii) (s : string) : Prop :=
  Forall (λ d, d ≠ c) (list_ascii_of_string s).

(* the route of the path-parameter test *)
Definition userRoute : RouteDefinition :=
  {| path := "/users/{userId}";
     method := get;
     description := Some "Get user by ID";
     requestType := None;
     parameters :=
       Some {[ "userId" :=
                 {| ppd_description := Some "The ID of the user to retrieve" |} ]};
     queryParameters := None;
     headers := None;
     security := None;
     responses :=
       [ {| statusCode := 200;
            rd_description := "Successfully retrieved user";
            rd_type := Some "User" |} ] |}.

(* a route whose response names a type that no source declares *)
Definition ghostRoute : RouteDefinition :=
  {| path := "/ghosts";
     method := get;
     description := None;
     requestType := None;
     parameters := None;
     queryParameters := None;
     headers := None;
     security := None;
     responses :=
       [ {| statusCode := 200; rd_description := "ok";
            rd_type := Some "Ghost" |} ] |}.

(* a route whose request body names a type that no source declares *)
Definition ghostRequestRoute : RouteDefinition :=
  {| path := "/ghosts";
     method := post;
     description := None;
     requestType := Some "Ghost";
     parameters := None;
     queryParameters := None;
     headers := None;
     security := None;
     responses := [] |}.

(** ** Definitions for the further properties *)

(** The values of [SchemaObjectType] that the generator produces. *)
Definition schemaTypeNames : list string :=
  ["number"; "string"; "boolean"; "array"; "object"; "null"].

(** Only the keys [type], [items], [enum] and [properties] may be set. *)
Definition noValidationKeys (s : SchemaObject) : Prop :=
  minimum s = None ∧ maximum s = None ∧ format s = None ∧ pattern s = None.

(* T[]...[] with n pairs of brackets *)
Definition nestedArrayType (n : nat) (t : Type_) : Type_ :=
  Nat.iter n arrayType t.

(* a property typed by an array, next to one typed by a string *)
Definition Inbox : Type_ :=
  objectType [("messages", arrayType stringType); ("owner", stringType)].

(** The security scheme stored under a name in the document. *)
Definition securitySchemeEntry (g : OpenAPIGenerator) (schemeName : string)
    : option SecurityScheme :=
  c ← components (spec g); ss ← securitySchemes c; ss !! schemeName.

(** The schema registry of the document, when it has one. *)
Definition registry (g : OpenAPIGenerator) : option (gmap string SchemaObject) :=
  c ← components (spec g); schemas c.

(* the security scheme and the servers of the tests *)
Definition bearerAuth : SecurityScheme :=
  {| ss_type := "http"; ss_description := Some "Enter JWT Bearer token";
     ss_name := None; ss_in := None; ss_scheme := Some "bearer";
     ss_bearerFormat := Some "JWT"; ss_openIdConnectUrl := None |}.

Definition productionServer : ServerConfiguration :=
  {| url := "https://api.example.com/v1";
     sc_description := Some "Production server"; variables := None |}.

Definition stagingServer : ServerConfiguration :=
  {| url := "https://staging-api.example.com/v1";
     sc_description := Some "Staging server";
     variables := Some {[ "environment" :=
                            {| sv_default := "staging";
                               sv_enum := Some ["staging"; "qa"];
                               sv_description := None |} ]} |}.

(* a generator whose document has lost its components *)
Definition bareGenerator (sourceFiles : list SourceFile) : OpenAPIGenerator :=
  {| spec := {| openapi := "3.0.0";
                info := {| title := "Lambda API"; version := "1.0.0" |};
                paths := ∅; components := None; servers := None |};
     project := sourceFiles;
     Object_prototype := λ _, None |}.

(** What resolving type names may change in a generator: nothing but the
    schema registry, which keeps the entries it has. *)
Definition registryGrows (g g' : OpenAPIGenerator) : Prop :=
  project g' = project g
  ∧ Object_prototype g' = Object_prototype g
  ∧ paths (spec g') = paths (spec g)
  ∧ openapi (spec g') = openapi (spec g)
  ∧ info (spec g') = info (spec g)
  ∧ servers (spec g') = servers (spec g)
  ∧ (∀ schemeName,
       securitySchemeEntry g' schemeName = securitySchemeEntry g schemeName)
  ∧ (∀ typeName,
       is_Some (registryEntry g typeName) → is_Some (registryEntry g' typeName)).

(** The same, for a method that may also write under [paths]. *)
Definition keepsDocument (g g' : OpenAPIGenerator) : Prop :=
  project g' = project g
  ∧ openapi (spec g') = openapi (spec g)
  ∧ info (spec g') = info (spec g)
  ∧ servers (spec g') = servers (spec g)
  ∧ (∀ schemeName,
       securitySchemeEntry g' schemeName = securitySchemeEntry g schemeName)
  ∧ (∀ typeName,
       is_Some (registryEntry g typeName) → is_Some (registryEntry g' typeName)).

(* the generator after the first statement of addRoute *)
Definition withPathItem (route : RouteDefinition) (g : OpenAPIGenerator)
    : OpenAPIGenerator :=
  match paths (spec g) !! path route with
  | Some _ => g
  | None =>
      if inherited g (path route) then g
      else {| spec := setPaths (<[path route := ∅]> (paths (spec g))) (spec g);
              project := project g;
              Object_prototype := Object_prototype g |}
  end.

(* the generator after the last statement of addRoute *)
Definition withOperation (route : RouteDefinition) (operation : OperationObject)
    (g : OpenAPIGenerator) : OpenAPIGenerator :=
  match paths (spec g) !! path route with
  | Some pathItem =>
      {| spec := setPaths (<[path route :=
                              <[methodKey (method route) := operation]> pathItem]>
                             (paths (spec g)))
                          (spec g);
         project := project g;
         Object_prototype := Object_prototype g |}
  | None =>
      if decide (path route = "__proto__")
      then (storeOnObjectPrototype (method route) operation g).2
      else g
  end.

(* the operation assembled by addRoute, in the generator g it has reached
   after its first statement, from the request body schema and the responses
   it has resolved *)
Definition operationFor (g : OpenAPIGenerator) (route : RouteDefinition)
    (body : option SchemaObject) (resps : gmap string ResponseObject)
    : OperationObject :=
  {| op_description := orString (description route) "";
     op_responses := resps;
     op_parameters := match routeParameters g route with
                      | [] => None
                      | _ => Some (routeParameters g route)
                      end;
     op_security := securityRequirements <$> security route;
     op_requestBody := body |}.

(** A method that leaves [Object.prototype] as it was. *)
Definition preservesObjectPrototype {A} (m : M A) : Prop :=
  ∀ g, Object_prototype (m g).2 = Object_prototype g.

(* the request-body step of addRoute *)
Definition requestBodySchema (route : RouteDefinition) : M (option SchemaObject) :=
  match truthy (requestType route) with
  | Some typeName => let* s := extractTypeSchema typeName in ret (Some s)
  | None => ret None
  end.

(* the two routes of the composition test; the first without its response
   type *)
Definition listUsersRoute : RouteDefinition :=
  {| path := "/users"; method := get; description := Some "List users";
     requestType := None; parameters := None; queryParameters := None;
     headers := None; security := None;
     responses := [ {| statusCode := 200; rd_description := "Success";
                       rd_type := None |} ] |}.

Definition createUserRoute : RouteDefinition :=
  {| path := "/users"; method := post; description := Some "Create user";
     requestType := Some "User"; parameters := None; queryParameters := None;
     headers := None; security := None;
     responses := [ {| statusCode := 201; rd_description := "Created";
                       rd_type := Some "User" |} ] |}.

(** Resolution of a name in a project yields the schema [s]. *)
Definition resolvesTo (sourceFiles : list SourceFile) (typeName : string)
    (s : SchemaObject) : Prop :=
  ∃ typeAlias,
    findTypeAlias typeName sourceFiles = Some typeAlias
    ∧ ∀ g, getSchemaForType (getType typeAlias) g = (Return s, g).

(* the route of the file-writing test: one response, no type *)
Definition testRoute : RouteDefinition :=
  {| path := "/test"; method := get; description := Some "Test endpoint";
     requestType := None; parameters := None; queryParameters := None;
     headers := None; security := None;
     responses := [ {| statusCode := 200; rd_description := "Success";
                       rd_type := None |} ] |}.

(* a route with a path parameter, a query parameter, request and response
   headers, an empty request type and a typed response *)
Definition headersRoute : RouteDefinition :=
  {| path := "/users/{userId}"; method := post; description := None;
     requestType := Some ""; parameters := None;
     queryParameters :=
       Some [("page", {| qp_required := false;
                         qp_schema := mkSchema (Some "integer") None None None
                                               (Some 1%Z) None None None;
                         qp_description := Some "Page number" |})];
     headers :=
       Some {| request := Some [ {| hd_name := "X-API-Version";
                                    hd_required := Some true;
                                    hd_schema := typeSchema "string";
                                    hd_description := Some "API Version" |} ];
               response := Some [ {| hd_name := "X-Rate-Limit";
                                     hd_required := None;
                                     hd_schema := typeSchema "integer";
                                     hd_description := Some "Rate limit details" |} ] |};
     security := Some ["bearerAuth"];
     responses := [ {| statusCode := 201; rd_description := "User created";
                       rd_type := None |};
                    {| statusCode := 404; rd_description := "Not found";
                       rd_type := Some "User" |} ] |}.

(** Every name of the list, [__proto__] apart, has its resolved schema in
    the registry. *)
Definition registered (g : OpenAPIGenerator) (names : list string) : Prop :=
  ∀ typeName, typeName ∈ names → typeName ≠ "__proto__" →
    ∃ s, resolvesTo (project g) typeName s ∧ registryEntry g typeName = Some s.

(* a route whose path is a name every object inherits *)
Definition constructorRoute : RouteDefinition :=
  {| path := "constructor"; method := get; description := Some "Constructor";
     requestType := None; parameters := None; queryParameters := None;
     headers := None; security := None;
     responses := [ {| statusCode := 200; rd_description := "Success";
                       rd_type := None |} ] |}.

(* a route whose path is "__proto__" *)
Definition protoRoute : RouteDefinition :=
  {| path := "__proto__"; method := get; description := Some "Prototype";
     requestType := None; parameters := None; queryParameters := None;
     headers := None; security := None; responses := [] |}.

(* a route whose path has a brace inside a placeholder *)
Definition nestedBraceRoute : RouteDefinition :=
  {| path := "/a/{x{y}"; method := get; description := None;
     requestType := None; parameters := None; queryParameters := None;
     headers := None; security := None; responses := [] |}.

(* a route with a placeholder named as a method, declaring no description
   for it *)
Definition getParameterRoute : RouteDefinition :=
  {| path := "/things/{get}"; method := post; description := None;
     requestType := None; parameters := Some ∅; queryParameters := None;
     headers := None; security := None; responses := [] |}.

(* String.prototype.toLowerCase on one character: the ASCII capitals are
   mapped to their small letters.  Characters outside ASCII are left as they
   are; no such character becomes or stops being a letter of the case labels
   of mapTypeToSchemaType, so the switch below takes the branch the code
   takes. *)
Definition toLowerCaseChar (c : ascii) : ascii :=
  let n := nat_of_ascii c in
  if (65 <=? n)%nat && (n <=? 90)%nat then ascii_of_nat (n + 32) else c.

(* typeString.toLowerCase() *)
Fixpoint toLowerCase (str : string) : string :=
  match str with
  | "" => ""
  | String c rest => String (toLowerCaseChar c) (toLowerCase rest)
  end.

(* private mapTypeToSchemaType(typeString: string): SchemaObjectType *)
Definition mapTypeToSchemaType (typeString : string) : string :=
  let lowered := toLowerCase typeString in
  if decide (lowered = "string") then "string"
  else if decide (lowered = "number") then "number"
  else if decide (lowered = "boolean") then "boolean"
  else if decide (lowered = "object") then "object"
  else if decide (lowered = "array") then "array"
  else if decide (lowered = "null") then "null"
  else if decide (lowered = "undefined") then "null"
  else "string".

(* what the regular expression has consumed of the attempt under way *)
Definition pending (inside : option (list ascii)) : string :=
  match inside with
  | None => ""
  | Some seen => String "{" (string_of_list_ascii (rev seen))
  end.

(** * Properties *)

(** ** Induction along the element type *)

Lemma Type_element_ind (P : Type_ → Prop) :
  (∀ t, (∀ e, getArrayElementType t = Some e → P e) → P t) →
  ∀ t, P t.
Proof.
  intros step. fix IH 1. intros t. apply step.
  destruct t as [? ? ? ? ? ? ? ? ? ? ? el ? ? ?]; simpl.
  intros e He. destruct el as [e'|]; [|discriminate].
  injection He as <-. apply IH.
Qed.

(** ** The loop over the properties *)

Lemma forEachProperty_spec (props : list (string * bool * Type_))
    (acc : gmap string SchemaObject) :
  forEachProperty props acc
  = if forallb hasValueDeclaration props
    then Return (foldl (λ acc prop,
                          assign (getName prop)
                                 (propertySchema (typeOfProperty prop)) acc)
                       acc props)
    else Throw TypeError.
Proof.
  revert acc. induction props as [|prop props IH]; intros acc; [done|].
  simpl. destruct (hasValueDeclaration prop); [apply IH|done].
Qed.

(** ** Inference reads nothing but the handle *)

Lemma getSchemaForType_pure (t : Type_) :
  ∃ r, ∀ g, getSchemaForType t g = (r, g).
Proof.
  induction t as [t IH] using Type_element_ind.
  destruct t as [arr en ob ? ? ? ? ? ? ? ? el un lit props]; simpl in *.
  destruct arr.
  - destruct el as [e|].
    + destruct (IH e eq_refl) as [[s|x] Hr].
      * exists (Return (arraySchema s)). intros g. unfold bind. by rewrite Hr.
      * exists (Throw x). intros g. unfold bind. by rewrite Hr.
    + by exists (Throw TypeError).
  - destruct en; [by eexists|]. destruct ob; [|by eexists].
    destruct (forEachProperty props ∅); by eexists.
Qed.

Lemma getSchemaForType_array (t e : Type_) (g : OpenAPIGenerator) :
  isArray t = true → getArrayElementType t = Some e →
  getSchemaForType t g =
    match getSchemaForType e g with
    | (Return s, g') => (Return (arraySchema s), g')
    | (Throw x, g') => (Throw x, g')
    end.
Proof.
  intros Ha He. destruct t; simpl in *. rewrite Ha, He. reflexivity.
Qed.

Lemma getSchemaForType_not_array (t : Type_) (g : OpenAPIGenerator) :
  isArray t = false →
  getSchemaForType t g =
    (if isEnum t then Return (enumSchema (unionLiteralValues t))
     else if isObject t
          then if forallb hasValueDeclaration (getProperties t)
               then Return (objectSchema (collectProperties (getProperties t)))
               else Throw TypeError
          else Return (typeSchema (getTypeString t)), g).
Proof.
  intros Ha. destruct t as [arr en ob ? ? ? ? ? ? ? ? el un lit props].
  simpl in *. rewrite Ha, forEachProperty_spec. unfold collectProperties.
  destruct en; [done|]. destruct ob; [|done].
  by destruct (forallb hasValueDeclaration props).
Qed.

Lemma getSchemaForType_object (t : Type_) (g : OpenAPIGenerator) :
  isArray t = false → isEnum t = false → isObject t = true →
  getSchemaForType t g =
    (if forallb hasValueDeclaration (getProperties t)
     then Return (objectSchema (collectProperties (getProperties t)))
     else Throw TypeError, g).
Proof.
  intros Ha He Ho. rewrite getSchemaForType_not_array by done.
  by rewrite He, Ho.
Qed.

(** ** Properties of an object: one entry per property name *)

Lemma lookup_assign_ne {A} (key k : string) (value : A) (obj : gmap string A) :
  key ≠ k → assign key value obj !! k = obj !! k.
Proof.
  intros Hne. unfold assign.
  destruct (decide (key = "__proto__")); [destruct (obj !! key)|];
    try done; by apply lookup_insert_ne.
Qed.

Lemma lookup_assign_eq {A} (key : string) (value : A) (obj : gmap string A) :
  key ≠ "__proto__" → assign key value obj !! key = Some value.
Proof.
  intros Hne. unfold assign. rewrite decide_False by done.
  apply lookup_insert_eq.
Qed.

Lemma lookup_assign_proto {A} (value : A) (obj : gmap string A) :
  assign "__proto__" value obj !! "__proto__"
  = (λ _, value) <$> obj !! "__proto__".
Proof.
  unfold assign. simpl. destruct (obj !! "__proto__") eqn:Hown; simpl.
  - apply lookup_insert_eq.
  - done.
Qed.

Lemma lookup_assign_is_Some {A} (key k : string) (value : A)
    (obj : gmap string A) :
  is_Some (obj !! k) → is_Some (assign key value obj !! k).
Proof.
  intros Hk. destruct (decide (key = k)) as [->|Hne].
  - destruct (decide (k = "__proto__")) as [->|Hp].
    + rewrite lookup_assign_proto. by apply fmap_is_Some.
    + by rewrite lookup_assign_eq.
  - by rewrite lookup_assign_ne.
Qed.



(** ** The claims on inference *)

(** C7. A type that matches none of the array, enum, object, number, string,
    boolean or null/undefined cases is inferred as [{type: 'string'}]: the
    last line of [getTypeString] is the default. *)
Theorem unmatched_type_defaults_to_string (t : Type_) (g : OpenAPIGenerator) :
  unmatched t →
  getTypeString t = "string"
  ∧ getSchemaForType t g = (Return (typeSchema "string"), g).
Proof.
  intros (Ha & He & Ho & Hnl & Hn & Hsl & Hs & Hbl & Hb & Hnu & Hu).
  assert (getTypeString t = "string") as Hts.
  { unfold getTypeString. by rewrite Hnl, Hn, Hsl, Hs, Hbl, Hb, Ha, Ho, Hnu, Hu. }
  split; [done|].
  rewrite getSchemaForType_not_array by done. by rewrite He, Ho, Hts.
Qed.

Lemma unmatched_type_defaults_to_string_witness :
  unmatched unknownType
  ∧ getTypeString unknownType = "string"
  ∧ getSchemaForType unknownType (create None None [])
    = (Return (typeSchema "string"), create None None []).
Proof.
  split; [by repeat split|].
  apply (unmatched_type_defaults_to_string unknownType (create None None [])).
  by repeat split.
Defined.

(** C5, as stated, fails: a union written as ["admin" | "user" | "trial" |
    "guest"] is composed of string literals only, yet [isEnum()] answers
    false for it and the inference yields the bare [{type: 'string'}]. *)
Lemma literal_union_is_not_enum_fragment :
  let t := literalUnionType ["admin"; "user"; "trial"; "guest"] in
  let values := ["admin"; "user"; "trial"; "guest"] in
  stringLiteralUnion t values
  ∧ (getSchemaForType t (create None None [])).1 = Return (typeSchema "string")
  ∧ (getSchemaForType t (create None None [])).1
    ≠ Return (enumSchema ((λ v, Some (LitString v)) <$> values)).
Proof.
  simpl. split; [|split].
  - repeat split; simpl; repeat constructor.
  - reflexivity.
  - discriminate.
Qed.

(** C5, amended. A union of string literals for which [isEnum()] answers
    true (an enum declaration) is inferred as [{type: 'string', enum:
    values}], the literal values in declaration order. *)
Theorem enum_union_yields_enum_fragment
    (t : Type_) (values : list string) (g : OpenAPIGenerator) :
  stringLiteralUnion t values → isEnum t = true →
  getSchemaForType t g
  = (Return (enumSchema ((λ v, Some (LitString v)) <$> values)), g).
Proof.
  intros (Ha & _ & Hv) He.
  rewrite getSchemaForType_not_array by done.
  rewrite He. unfold unionLiteralValues. by rewrite Hv.
Qed.

Lemma enum_union_yields_enum_fragment_witness :
  getSchemaForType UserType (create None None [])
  = (Return (enumSchema [Some (LitString "admin"); Some (LitString "user");
                         Some (LitString "trial"); Some (LitString "guest")]),
     create None None []).
Proof.
  apply (enum_union_yields_enum_fragment UserType
           ["admin"; "user"; "trial"; "guest"] (create None None [])).
  - repeat split; simpl; repeat constructor.
  - reflexivity.
Defined.




(** On a handle whose walk meets no call on undefined the inference
    completes normally with a schema. *)
Lemma getSchemaForType_returns (t : Type_) (g : OpenAPIGenerator) :
  inferable t = true →
  ∃ s : SchemaObject, getSchemaForType t g = (Return s, g).
Proof.
  induction t as [t IH] using Type_element_ind. intros Hwf.
  destruct (isArray t) eqn:Ha.
  - destruct (getArrayElementType t) as [e|] eqn:He.
    + assert (inferable e = true) as Hwe.
      { destruct t; simpl in *. by rewrite Ha, He in Hwf. }
      destruct (IH e eq_refl Hwe) as [s Hs].
      exists (arraySchema s).
      rewrite (getSchemaForType_array t e) by done. by rewrite Hs.
    + destruct t; simpl in *. by rewrite Ha, He in Hwf.
  - rewrite getSchemaForType_not_array by done.
    destruct t as [arr en ob ? ? ? ? ? ? ? ? el un lit props]; simpl in *.
    rewrite Ha in Hwf. destruct en; [by eexists|].
    destruct ob; [|by eexists]. rewrite Hwf. by eexists.
Qed.

(** C8. The inference is not total: [Record<"a" | "b", number>] is an
    object type whose properties have no value declaration, and on its
    handle the walk returns no schema but throws the TypeError of
    [getTypeAtLocation] called on undefined; so it does for an array of
    such records. *)
Theorem getSchemaForType_throws_on_mapped_type (g : OpenAPIGenerator) :
  getSchemaForType NumberRecord g = (Throw TypeError, g)
  ∧ getSchemaForType (arrayType NumberRecord) g = (Throw TypeError, g).
Proof. by split. Qed.

(** C9. Inferring twice from the same handle gives the same fragment both
    times: the second call, run in the generator left by the first, completes
    exactly as the first did, and neither call changes the generator. *)
Theorem getSchemaForType_idempotent (t : Type_) (g : OpenAPIGenerator) :
  getSchemaForType t (getSchemaForType t g).2 = getSchemaForType t g
  ∧ (getSchemaForType t g).2 = g.
Proof.
  destruct (getSchemaForType_pure t) as [r Hr].
  by rewrite !Hr.
Qed.

(** ** Resolution by name *)

Lemma findTypeAlias_skip (typeName : string) (pre rest : list SourceFile) :
  Forall (λ sourceFile, ¬ declares sourceFile typeName) pre →
  findTypeAlias typeName (pre ++ rest) = findTypeAlias typeName rest.
Proof.
  induction 1 as [|sourceFile pre Hno _ IH]; [done|]. simpl.
  destruct (getTypeAlias sourceFile typeName) as [[typeAlias|]|x] eqn:Hl;
    [|done..].
  exfalso. apply Hno. by exists typeAlias.
Qed.

Lemma findTypeAlias_None (typeName : string) (sourceFiles : list SourceFile) :
  Forall (λ sourceFile, ¬ declares sourceFile typeName) sourceFiles →
  findTypeAlias typeName sourceFiles = None.
Proof.
  intros Hno. rewrite <- (app_nil_r sourceFiles). by rewrite findTypeAlias_skip.
Qed.

(** What [extractTypeSchema] does once the name is resolved: the fragment
    it returns is the one it registers, for arrays too, because the array
    branch rebuilds the wrapper around the schema of the same element. *)
Lemma extractTypeSchema_found (typeName : string) (g : OpenAPIGenerator)
    (typeAlias : TypeAliasDeclaration) (r : Completion SchemaObject) :
  findTypeAlias typeName (project g) = Some typeAlias →
  getSchemaForType (getType typeAlias) g = (r, g) →
  extractTypeSchema typeName g =
    match r with
    | Return s => (Return s, {| spec := registerSchema typeName s (spec g);
                                project := project g;
                                Object_prototype := Object_prototype g |})
    | Throw x => (Throw x, g)
    end.
Proof.
  intros Hfind Hr. unfold extractTypeSchema, bind, this. simpl.
  rewrite Hfind, Hr. destruct r as [s|x]; [|done]. simpl.
  destruct (isArray (getType typeAlias)) eqn:Ha; [|done].
  destruct (getArrayElementType (getType typeAlias)) as [e|] eqn:He.
  - rewrite (getSchemaForType_array _ e) in Hr by done.
    destruct (getSchemaForType_pure e) as [re Hre].
    rewrite Hre in Hr. simpl. rewrite Hre.
    destruct re; by simplify_eq.
  - destruct (getType typeAlias); simpl in *. rewrite Ha, He in Hr. done.
Qed.

Lemma extractTypeSchema_not_found (typeName : string) (g : OpenAPIGenerator) :
  findTypeAlias typeName (project g) = None →
  extractTypeSchema typeName g = (Throw (Error (notFoundMessage typeName)), g).
Proof.
  intros Hfind. unfold extractTypeSchema, bind, this. simpl. by rewrite Hfind.
Qed.

(** The outcome depends on the project only through the resolved alias,
    and the project is left as it was. *)
Lemma extractTypeSchema_resolution (typeName : string)
    (doc : OpenAPIObject) (p1 p2 : list SourceFile)
    (proto : Method → option OperationObject) :
  findTypeAlias typeName p1 = findTypeAlias typeName p2 →
  (extractTypeSchema typeName
     {| spec := doc; project := p1; Object_prototype := proto |}).1
  = (extractTypeSchema typeName
       {| spec := doc; project := p2; Object_prototype := proto |}).1
  ∧ spec (extractTypeSchema typeName
            {| spec := doc; project := p1; Object_prototype := proto |}).2
    = spec (extractTypeSchema typeName
              {| spec := doc; project := p2; Object_prototype := proto |}).2.
Proof.
  intros Heq.
  destruct (findTypeAlias typeName p2) as [typeAlias|] eqn:H2.
  - destruct (getSchemaForType_pure (getType typeAlias)) as [r Hr].
    rewrite !(extractTypeSchema_found _ _ typeAlias r) by done.
    by destruct r.
  - by rewrite !extractTypeSchema_not_found.
Qed.

Lemma extractTypeSchema_project (typeName : string) (g : OpenAPIGenerator) :
  project (extractTypeSchema typeName g).2 = project g.
Proof.
  destruct (findTypeAlias typeName (project g)) as [typeAlias|] eqn:Hf.
  - destruct (getSchemaForType_pure (getType typeAlias)) as [r Hr].
    rewrite (extractTypeSchema_found _ _ typeAlias r) by done. by destruct r.
  - by rewrite extractTypeSchema_not_found.
Qed.

(** ** The claims on resolution and registration *)

(** C1, as stated, fails: for [List = Item[]] the entry written under
    ["List"] is the array wrapper that is also returned, not the object
    schema of the element. *)
Lemma array_alias_registry_entry_is_not_element_schema :
  (extractTypeSchema "List" listGenerator).1 = Return (arraySchema itemSchema)
  ∧ registryEntry (extractTypeSchema "List" listGenerator).2 "List"
    = Some (arraySchema itemSchema)
  ∧ registryEntry (extractTypeSchema "List" listGenerator).2 "List"
    ≠ Some itemSchema.
Proof.
  assert (extractTypeSchema "List" listGenerator
          = (Return (arraySchema itemSchema),
             {| spec := registerSchema "List" (arraySchema itemSchema)
                          (spec listGenerator);
                project := project listGenerator;
                Object_prototype := Object_prototype listGenerator |})) as ->.
  { by apply (extractTypeSchema_found "List" listGenerator
                {| getType := List_ |} (Return (arraySchema itemSchema))). }
  split; [done|]. simpl. unfold registryEntry. simpl.
  rewrite lookup_assign_eq by done. split; [done|]. discriminate.
Qed.

(** C1, amended. For a name other than [__proto__] resolved to an array
    of objects whose properties all have a value declaration,
    [extractTypeSchema] returns the wrapper [{type: 'array', items: {type:
    'object', properties}}] and, the registry being present, writes that
    same wrapper under the name. *)
Theorem array_alias_returns_and_registers_wrapper
    (typeName : string) (g : OpenAPIGenerator)
    (typeAlias : TypeAliasDeclaration) (elementType : Type_) :
  findTypeAlias typeName (project g) = Some typeAlias →
  isArray (getType typeAlias) = true →
  getArrayElementType (getType typeAlias) = Some elementType →
  isArray elementType = false → isEnum elementType = false →
  isObject elementType = true →
  forallb hasValueDeclaration (getProperties elementType) = true →
  typeName ≠ "__proto__" →
  is_Some (c ← components (spec g); schemas c) →
  let wrapper :=
    arraySchema (objectSchema (collectProperties (getProperties elementType))) in
  (extractTypeSchema typeName g).1 = Return wrapper
  ∧ registryEntry (extractTypeSchema typeName g).2 typeName = Some wrapper.
Proof.
  intros Hfind Ha Hel Hea Hee Heo Hdecl Hname [reg Hreg] wrapper.
  assert (getSchemaForType (getType typeAlias) g = (Return wrapper, g)) as Hr.
  { rewrite (getSchemaForType_array _ elementType) by done.
    rewrite getSchemaForType_object by done. by rewrite Hdecl. }
  rewrite (extractTypeSchema_found _ _ typeAlias (Return wrapper)) by done.
  split; [done|]. unfold registryEntry, registerSchema. simpl.
  destruct (components (spec g)) as [c|]; [|done]. simpl in Hreg.
  rewrite Hreg. simpl. by apply lookup_assign_eq.
Qed.

Lemma array_alias_returns_and_registers_wrapper_witness :
  (extractTypeSchema "List" listGenerator).1
  = Return (arraySchema (objectSchema (collectProperties (getProperties Item))))
  ∧ registryEntry (extractTypeSchema "List" listGenerator).2 "List"
    = Some (arraySchema
              (objectSchema (collectProperties (getProperties Item)))).
Proof.
  apply (array_alias_returns_and_registers_wrapper "List" listGenerator
           {| getType := List_ |} Item); try reflexivity; [done|].
  by eexists.
Defined.

(** C3. Sources are scanned in order and the first one that declares the
    name wins: sources before it that do not declare the name are passed
    over, sources after it are never consulted, so whatever they declare
    under the same name is shadowed. *)
Theorem first_declaring_source_wins
    (typeName : string) (pre post post' : list SourceFile)
    (source : SourceFile) (typeAlias : TypeAliasDeclaration)
    (doc : OpenAPIObject) (proto : Method → option OperationObject) :
  Forall (λ sourceFile, ¬ declares sourceFile typeName) pre →
  getTypeAlias source typeName = Return (Some typeAlias) →
  findTypeAlias typeName (pre ++ source :: post) = Some typeAlias
  ∧ (extractTypeSchema typeName
       {| spec := doc; project := pre ++ source :: post;
          Object_prototype := proto |}).1
    = (extractTypeSchema typeName
         {| spec := doc; project := pre ++ source :: post';
            Object_prototype := proto |}).1.
Proof.
  intros Hpre Hsrc.
  assert (∀ rest, findTypeAlias typeName (pre ++ source :: rest)
                  = Some typeAlias) as Hfind.
  { intros rest. rewrite findTypeAlias_skip by done. simpl. by rewrite Hsrc. }
  split; [done|].
  apply extractTypeSchema_resolution. by rewrite !Hfind.
Qed.

Lemma first_declaring_source_wins_witness :
  findTypeAlias "T" [sourceA; sourceB] = Some {| getType := Item |}
  ∧ (extractTypeSchema "T" (create None None [sourceA; sourceB])).1
    = (extractTypeSchema "T" (create None None [sourceA])).1.
Proof.
  apply (first_declaring_source_wins "T" [] [sourceB] [] sourceA
           {| getType := Item |} (initialSpec None None) (λ _, None)).
  - constructor.
  - reflexivity.
Defined.

(** The two sources of the witness give [T] different shapes, and the
    shape returned is that of the first. *)
Lemma first_declaring_source_wins_shapes :
  (extractTypeSchema "T" (create None None [sourceA; sourceB])).1
  = Return itemSchema
  ∧ (extractTypeSchema "T" (create None None [sourceB; sourceA])).1
    ≠ Return itemSchema.
Proof.
  split.
  - by rewrite (extractTypeSchema_found "T" _ {| getType := Item |}
                  (Return itemSchema)).
  - rewrite (extractTypeSchema_found "T" _ {| getType := User |}
               (Return (objectSchema (collectProperties (getProperties User)))))
      by done.
    simpl. intros Heq. simplify_eq.
Qed.



(** The expectations of the repository's tests on [User] and [UserList]:
    the registered [User] schema carries the enum of its [type] property,
    and the schema returned for [UserList] is an array of objects. *)
Example User_type_property_is_enum :
  (s ← registryEntry
         (extractTypeSchema "User" (create None None [sourceB])).2 "User";
   props ← properties s; props !! "type")
  = Some (enumSchema [Some (LitString "admin"); Some (LitString "user");
                      Some (LitString "trial"); Some (LitString "guest")]).
Proof. vm_compute. reflexivity. Qed.

Example UserList_schema_is_array_of_objects :
  ∃ s itemS,
    (extractTypeSchema "UserList"
       (create None None [sourceFileOf [("UserList", UserList)]])).1 = Return s
    ∧ type s = Some "array" ∧ items s = Some itemS
    ∧ type itemS = Some "object"
    ∧ dom <$> properties itemS = Some {[ "id"; "name"; "email"; "type" ]}.
Proof.
  do 2 eexists. split; [vm_compute; reflexivity|].
  by repeat split.
Qed.

(** With an unreadable source in front, [User] is resolved from the next
    one and the call returns its schema. *)
Lemma unreadable_source_then_declaring_source :
  ∃ s, (extractTypeSchema "User"
          (create None None [unreadableSourceFile; sourceB])).1 = Return s.
Proof.
  eexists.
  by rewrite (extractTypeSchema_found "User" _ {| getType := User |}
                (Return (objectSchema (collectProperties (getProperties User))))).
Qed.

(** ** Route assembly *)

Lemma preservesProject_bind {A B} (m : M A) (k : A → M B) :
  preservesProject m → (∀ a, preservesProject (k a)) →
  preservesProject (bind m k).
Proof.
  intros Hm Hk g. unfold bind. specialize (Hm g).
  destruct (m g) as [[a|x] g1]; simpl in *; [|done].
  by rewrite Hk.
Qed.

Lemma addResponses_project route acc rs : preservesProject (addResponses route acc rs).
Proof.
  revert acc. induction rs as [|r rs IH]; intros acc; [done|].
  simpl. apply preservesProject_bind; [|done].
  unfold addResponse. apply preservesProject_bind; [|done].
  destruct (truthy (rd_type r)); [|done].
  intros g. apply extractTypeSchema_project.
Qed.

Lemma addRoute_project route : preservesProject (addRoute route).
Proof.
  unfold addRoute.
  repeat (apply preservesProject_bind; [|intros ?]); try done.
  - by repeat case_match.
  - case_match; [|done]. apply preservesProject_bind; [|done].
    intros g. apply extractTypeSchema_project.
  - apply addResponses_project.
  - by repeat case_match.
Qed.

Lemma addResponses_missing route acc rs typeName g :
  findTypeAlias typeName (project g) = None →
  typeName ∈ omap (λ r, truthy (rd_type r)) rs →
  ∃ x g', addResponses route acc rs g = (Throw x, g').
Proof.
  revert acc g. induction rs as [|r rs IH]; intros acc g Hnone Hin; simpl in *.
  - by apply elem_of_nil in Hin.
  - unfold bind, addResponse at 1, bind.
    destruct (truthy (rd_type r)) as [n|] eqn:Hn; simpl in *.
    + pose proof (extractTypeSchema_project n g) as Hp.
      destruct (extractTypeSchema n g) as [[s|x] g1] eqn:He; [|by eauto].
      simpl in *. apply elem_of_cons in Hin as [<-|Hin].
      * rewrite extractTypeSchema_not_found in He by done. simplify_eq.
      * apply IH; [by rewrite Hp|done].
    + by apply IH.
Qed.

(** C2. When no source declares the name, resolution throws the error
    whose message is [Type '<name>' not found in any source files], and the
    error reaches the caller of the build: [addRoute] throws it when the
    name is the request type, and [addRoute] and [addRoutes] throw instead
    of returning whenever a route refers to the name. *)
Theorem missing_type_is_reported (typeName : string) (g : OpenAPIGenerator) :
  Forall (λ sourceFile, ¬ declares sourceFile typeName) (project g) →
  extractTypeSchema typeName g
  = (Throw (Error ("Type '" ++ typeName ++ "' not found in any source files")),
     g)
  ∧ (∀ route, truthy (requestType route) = Some typeName →
       ∃ g', addRoute route g
             = (Throw (Error ("Type '" ++ typeName
                              ++ "' not found in any source files")), g'))
  ∧ (∀ route routes, typeName ∈ referencedTypes route → route ∈ routes →
       (∃ x g', addRoute route g = (Throw x, g'))
       ∧ (∃ x g', addRoutes routes g = (Throw x, g'))).
Proof.
  intros Hno. apply findTypeAlias_None in Hno.
  split; [by apply extractTypeSchema_not_found|].
  assert (∀ route g0, project g0 = project g →
            typeName ∈ referencedTypes route →
            ∃ x g', addRoute route g0 = (Throw x, g')) as Hroute.
  { intros route g0 Hp Hin. unfold addRoute, bind, this. simpl.
    set (g1 := (match paths (spec g0) !! path route with
                | Some _ => ret ()
                | None => _ end g0)).
    assert (∃ u g2, g1 = (Return u, g2) ∧ project g2 = project g) as (u & g2 & -> & Hp2).
    { subst g1. repeat case_match; eauto. }
    unfold referencedTypes in Hin. apply elem_of_app in Hin.
    destruct (truthy (requestType route)) as [n|] eqn:Hn; simpl in *.
    - unfold bind.
      pose proof (extractTypeSchema_project n g2) as Hp3.
      destruct (extractTypeSchema n g2) as [[s|x] g3] eqn:He; [|by eauto].
      simpl in *. destruct Hin as [Hin|Hin].
      + apply list_elem_of_singleton in Hin as ->.
        rewrite extractTypeSchema_not_found in He by congruence. simplify_eq.
      + destruct (addResponses_missing route ∅ (responses route) typeName g3)
          as (x & g4 & ->); [congruence|done|]. eauto.
    - destruct Hin as [Hin|Hin]; [by apply elem_of_nil in Hin|].
      destruct (addResponses_missing route ∅ (responses route) typeName g2)
        as (x & g4 & ->); [congruence|done|]. eauto. }
  split.
  - intros route Hreq. unfold addRoute, bind, this. simpl.
    set (g1 := (match paths (spec g) !! path route with
                | Some _ => ret ()
                | None => _ end g)).
    assert (∃ u g2, g1 = (Return u, g2) ∧ project g2 = project g) as (u & g2 & -> & Hp2).
    { subst g1. repeat case_match; eauto. }
    rewrite Hreq. unfold bind.
    rewrite extractTypeSchema_not_found by congruence. eauto.
  - intros route routes Hin Hmem. split; [by apply Hroute|].
    unfold addRoutes. revert g Hno Hroute.
    induction routes as [|r routes IH]; intros g Hno Hroute.
    + by apply elem_of_nil in Hmem.
    + simpl. unfold bind.
      pose proof (addRoute_project r g) as Hp.
      destruct (addRoute r g) as [[u|x] g1] eqn:Hr; [|by eauto].
      simpl in Hp. apply elem_of_cons in Hmem as [->|Hmem].
      * destruct (Hroute r g eq_refl Hin) as (x & g' & Hx). congruence.
      * apply IH; [done|congruence|].
        intros route' g0 Hp0. apply Hroute. congruence.
Qed.


Lemma missing_type_is_reported_witness :
  let g := create None None [sourceB] in
  extractTypeSchema "Ghost" g
  = (Throw (Error ("Type '" ++ "Ghost" ++ "' not found in any source files")),
     g)
  ∧ (∃ g', addRoute ghostRequestRoute g
           = (Throw (Error ("Type '" ++ "Ghost"
                            ++ "' not found in any source files")), g'))
  ∧ (∃ x g', addRoute ghostRoute g = (Throw x, g'))
  ∧ (∃ x g', addRoutes [userRoute; ghostRoute] g = (Throw x, g')).
Proof.
  intros g.
  assert (Forall (λ sourceFile, ¬ declares sourceFile "Ghost") (project g))
    as Hno.
  { simpl. repeat constructor. intros [typeAlias Hdecl]. discriminate. }
  destruct (missing_type_is_reported "Ghost" g Hno) as (Hthrow & Hreq & Hany).
  split; [exact Hthrow|]. split; [by apply Hreq|].
  assert ("Ghost" ∈ referencedTypes ghostRoute) as Href.
  { simpl. apply elem_of_cons. by left. }
  assert (ghostRoute ∈ [userRoute; ghostRoute]) as Hmem.
  { apply elem_of_cons. right. apply elem_of_cons. by left. }
  destruct (Hany ghostRoute [userRoute; ghostRoute] Href Hmem) as [H1 H2].
  by split.
Defined.

(** The missing type of a response is reported with the same message. *)
Lemma ghost_route_is_rejected :
  (addRoute ghostRoute (create None None [sourceA])).1
  = Throw (Error "Type 'Ghost' not found in any source files").
Proof. reflexivity. Qed.

(** ** Path parameters *)

Lemma string_of_list_ascii_snoc (l : list ascii) (c : ascii) (r : string) :
  string_of_list_ascii (l ++ [c]) ++ r = string_of_list_ascii l ++ String c r.
Proof.
  induction l as [|d l IH]; [done|].
  change (String d (string_of_list_ascii (l ++ [c]) ++ r)
          = String d (string_of_list_ascii l ++ String c r)).
  by rewrite IH.
Qed.

Lemma matchPlaceholders_inside (seen : list ascii) (n post : string) :
  seen ≠ [] → avoids "}" n →
  matchPlaceholders (Some seen) (n ++ String "}" post)
  = String "{" (string_of_list_ascii (rev seen) ++ n ++ "}")
      :: matchPlaceholders None post.
Proof.
  revert seen. induction n as [|c n IH]; intros seen Hseen Hn; simpl.
  - by destruct seen as [|d seen].
  - apply Forall_cons in Hn as [Hc Hn].
    destruct seen as [|d seen]; [done|]. rewrite decide_False by done.
    rewrite IH by done. do 2 f_equal.
    change (rev (c :: d :: seen)) with (rev (d :: seen) ++ [c])%list.
    apply string_of_list_ascii_snoc.
Qed.

Lemma matchPlaceholders_placeholder (pre n post : string) :
  avoids "{" pre → n ≠ "" → avoids "}" n →
  matchPlaceholders None (pre ++ String "{" (n ++ String "}" post))
  = String "{" (n ++ "}") :: matchPlaceholders None post.
Proof.
  intros Hpre Hne Hn. induction pre as [|c pre IH]; simpl.
  - destruct n as [|c n]; [done|]. simpl.
    apply Forall_cons in Hn as [Hc Hn]. rewrite decide_False by done.
    by rewrite (matchPlaceholders_inside [c]).
  - apply Forall_cons in Hpre as [Hc Hpre]. rewrite decide_False by done.
    by apply IH.
Qed.

Lemma matchPlaceholders_no_brace (s : string) :
  avoids "{" s → matchPlaceholders None s = [].
Proof.
  induction s as [|c s IH]; intros Hs; simpl; [done|].
  apply Forall_cons in Hs as [Hc Hs]. rewrite decide_False by done. by apply IH.
Qed.

Lemma slice_1_m1_braces (n : string) : slice_1_m1 (String "{" (n ++ "}")) = n.
Proof.
  simpl. induction n as [|c n IH]; [done|]. simpl.
  assert (String.length (n ++ "}") = S (String.length n)) as Hl.
  { clear. induction n; simpl; congruence. }
  rewrite Hl in *. simpl in *. rewrite Nat.sub_0_r in IH. by rewrite IH.
Qed.

(** X22. A placeholder [{n}] whose name is non-empty and free of ['}'],
    preceded by text without ['{'], is the first parameter extracted, and
    extraction goes on after its closing brace. *)
Lemma extractPathParameters_placeholder (pre n post : string) :
  avoids "{" pre → n ≠ "" → avoids "}" n →
  extractPathParameters (pre ++ String "{" (n ++ String "}" post))
  = n :: extractPathParameters post.
Proof.
  intros. unfold extractPathParameters.
  rewrite matchPlaceholders_placeholder by done.
  rewrite fmap_cons. by rewrite slice_1_m1_braces.
Qed.

Example extractPathParameters_two :
  extractPathParameters "/users/{userId}/posts/{postId}" = ["userId"; "postId"].
Proof. reflexivity. Qed.

Example extractPathParameters_odd :
  extractPathParameters "/a/{}/{x{y}/{z" = ["x{y"].
Proof. reflexivity. Qed.

(** The parameters of the operation for the route of the test. *)
Example userRoute_parameters :
  op_parameters <$> operationOf (addRoute userRoute (create None None [sourceB])).2
                                userRoute
  = Some (Some [ {| name := "userId"; in_ := "path"; required := true;
                    schema := typeSchema "string";
                    po_description := Some "The ID of the user to retrieve" |} ]).
Proof. vm_compute. reflexivity. Qed.

(** * Further properties of the generator *)

(** ** Shape of the inferred schemas *)

Lemma getTypeString_names (t : Type_) : getTypeString t ∈ schemaTypeNames.
Proof.
  unfold getTypeString, schemaTypeNames.
  repeat case_match; by repeat constructor.
Qed.

Lemma getTypeString_not_array (t : Type_) :
  isArray t = false → getTypeString t ≠ "array".
Proof.
  intros Ha. unfold getTypeString. rewrite Ha. by repeat case_match.
Qed.

Lemma getTypeString_not_object (t : Type_) :
  isArray t = false → isObject t = false → getTypeString t ≠ "object".
Proof.
  intros Ha Ho. unfold getTypeString. rewrite Ha, Ho. by repeat case_match.
Qed.

Lemma propertySchema_flat (propType : Type_) :
  (∃ n, n ∈ schemaTypeNames ∧ type (propertySchema propType) = Some n)
  ∧ items (propertySchema propType) = None
  ∧ properties (propertySchema propType) = None.
Proof.
  unfold propertySchema. destruct (isEnum propType); simpl.
  - split; [|done]. exists "string". split; [by repeat constructor|done].
  - split; [|done]. eexists. split; [apply getTypeString_names|done].
Qed.

Lemma dom_assign {A} (key : string) (value : A) (obj : gmap string A) :
  dom (assign key value obj)
  = if decide (key = "__proto__") then dom obj else {[key]} ∪ dom obj.
Proof.
  unfold assign. destruct (decide (key = "__proto__")) as [->|Hne].
  - destruct (obj !! "__proto__") eqn:Hown; [|done].
    rewrite dom_insert_L. apply elem_of_dom_2 in Hown. set_solver.
  - apply dom_insert_L.
Qed.

Lemma collectProperties_entry (props : list (string * bool * Type_))
    (k : string) (s : SchemaObject) :
  collectProperties props !! k = Some s →
  ∃ declared propType,
    (k, declared, propType) ∈ props ∧ s = propertySchema propType.
Proof.
  unfold collectProperties.
  assert (∀ acc : gmap string SchemaObject,
            foldl (λ acc prop,
                     assign (getName prop)
                            (propertySchema (typeOfProperty prop)) acc)
                  acc props !! k = Some s →
            acc !! k = Some s
            ∨ ∃ declared propType,
                (k, declared, propType) ∈ props ∧ s = propertySchema propType)
    as Hgen.
  { induction props as [|[[n d] ty] props IH]; intros acc Hl; simpl in *;
      [by left|].
    destruct (IH _ Hl) as [Hacc|(d' & ty' & Hin & ->)].
    - destruct (decide (n = k)) as [->|Hne].
      + destruct (decide (k = "__proto__")) as [->|Hp].
        * rewrite lookup_assign_proto in Hacc.
          destruct (acc !! "__proto__") eqn:Hown; simplify_eq/=.
          right. exists d, ty. split; [apply elem_of_cons; by left|done].
        * rewrite lookup_assign_eq in Hacc by done. simplify_eq. right.
          exists d, ty. split; [apply elem_of_cons; by left|done].
      + rewrite lookup_assign_ne in Hacc by done. by left.
    - right. exists d', ty'. split; [apply elem_of_cons; by right|done]. }
  intros Hl. destruct (Hgen ∅ Hl) as [Habs|?]; [|done].
  by rewrite lookup_empty in Habs.
Qed.

Lemma collectProperties_dom (props : list (string * bool * Type_)) :
  dom (collectProperties props)
  = list_to_set (getName <$> props) ∖ {["__proto__"]}.
Proof.
  unfold collectProperties.
  assert (∀ acc : gmap string SchemaObject,
            dom (foldl (λ acc prop,
                          assign (getName prop)
                                 (propertySchema (typeOfProperty prop)) acc)
                       acc props)
            = dom acc ∪ (list_to_set (getName <$> props) ∖ {["__proto__"]}))
    as Hgen.
  { induction props as [|[[n d] ty] props IH]; intros acc; simpl.
    - set_solver.
    - rewrite IH, dom_assign. change (getName (n, d, ty)) with n.
      destruct (decide (n = "__proto__")) as [Heq|Hne];
        generalize dependent "__proto__"; intros proto; set_solver. }
  rewrite Hgen, dom_empty_L. set_solver.
Qed.

Lemma declared_of_forallb (props : list (string * bool * Type_))
    (k : string) (declared : bool) (propType : Type_) :
  forallb hasValueDeclaration props = true →
  (k, declared, propType) ∈ props → declared = true.
Proof.
  intros Hall Hin. rewrite forallb_forall in Hall.
  apply (Hall (k, declared, propType)). by apply list_elem_of_In.
Qed.

(** X1. Every schema returned by [getSchemaForType] has a [type] among
    number, string, boolean, array, object and null; it has [items] exactly
    when the type is array and [properties] exactly when it is object; it
    has [enum] only with type string; it never carries [minimum],
    [maximum], [format] or [pattern]. *)
Theorem inferred_schema_shape
    (t : Type_) (g g' : OpenAPIGenerator) (s : SchemaObject) :
  getSchemaForType t g = (Return s, g') →
  (∃ n, n ∈ schemaTypeNames ∧ type s = Some n)
  ∧ (type s = Some "array" ↔ is_Some (items s))
  ∧ (type s = Some "object" ↔ is_Some (properties s))
  ∧ (is_Some (enum s) → type s = Some "string")
  ∧ noValidationKeys s.
Proof.
  intros Hret. destruct (isArray t) eqn:Ha.
  - destruct (getArrayElementType t) as [e|] eqn:He.
    + rewrite (getSchemaForType_array t e) in Hret by done.
      destruct (getSchemaForType e g) as [[se|x] g1]; simplify_eq.
      simpl. repeat split; try done; try by eexists.
      exists "array". split; [by repeat constructor|done].
    + destruct t; simpl in *. rewrite Ha, He in Hret. done.
  - rewrite getSchemaForType_not_array in Hret by done.
    destruct (isEnum t);
      [|destruct (isObject t) eqn:Ho;
        [destruct (forallb hasValueDeclaration (getProperties t))|]];
      simplify_eq; simpl.
    + repeat split; try done; try by intros [? ?].
      exists "string". split; [by repeat constructor|done].
    + repeat split; try done; try by eexists; try by intros [? ?].
      exists "object". split; [by repeat constructor|done].
    + pose proof (getTypeString_not_array t Ha).
      pose proof (getTypeString_not_object t Ha Ho).
      repeat split; try done; try (by intros [? ?]); try (intros; congruence).
      eexists. split; [apply getTypeString_names|done].
Qed.

Lemma inferred_schema_shape_witness :
  (∃ n, n ∈ schemaTypeNames
        ∧ type (arraySchema (objectSchema (collectProperties (getProperties User))))
          = Some n)
  ∧ (type (arraySchema (objectSchema (collectProperties (getProperties User))))
     = Some "array"
     ↔ is_Some (items (arraySchema
                         (objectSchema (collectProperties (getProperties User))))))
  ∧ (type (arraySchema (objectSchema (collectProperties (getProperties User))))
     = Some "object"
     ↔ is_Some (properties
                  (arraySchema
                     (objectSchema (collectProperties (getProperties User))))))
  ∧ (is_Some (enum (arraySchema
                      (objectSchema (collectProperties (getProperties User)))))
     → type (arraySchema (objectSchema (collectProperties (getProperties User))))
       = Some "string")
  ∧ noValidationKeys
      (arraySchema (objectSchema (collectProperties (getProperties User)))).
Proof.
  apply (inferred_schema_shape UserList (create None None [])
           (create None None [])).
  reflexivity.
Defined.

(** X2. Every entry of the [properties] of an inferred schema is the
    schema of a declared property computed by the shallow rule: it has a
    [type] and neither [items] nor [properties], so an array-typed property
    is the bare [{type: 'array'}]. *)
Theorem property_fragments_are_flat
    (t : Type_) (g g' : OpenAPIGenerator) (s : SchemaObject)
    (props : gmap string SchemaObject) (k : string) (ps : SchemaObject) :
  getSchemaForType t g = (Return s, g') →
  properties s = Some props → props !! k = Some ps →
  (∃ n, n ∈ schemaTypeNames ∧ type ps = Some n)
  ∧ items ps = None ∧ properties ps = None
  ∧ ∃ propType,
      (k, true, propType) ∈ getProperties t ∧ ps = propertySchema propType.
Proof.
  intros Hret Hprops Hk. destruct (isArray t) eqn:Ha.
  - destruct (getArrayElementType t) as [e|] eqn:He.
    + rewrite (getSchemaForType_array t e) in Hret by done.
      destruct (getSchemaForType e g) as [[se|x] g1]; simplify_eq.
    + destruct t; simpl in *. rewrite Ha, He in Hret. done.
  - rewrite getSchemaForType_not_array in Hret by done.
    destruct (isEnum t); [by simplify_eq|].
    destruct (isObject t); [|by simplify_eq].
    destruct (forallb hasValueDeclaration (getProperties t)) eqn:Hdecl;
      simplify_eq.
    simpl in Hprops. simplify_eq.
    apply collectProperties_entry in Hk as (declared & propType & Hin & ->).
    pose proof (declared_of_forallb _ _ _ _ Hdecl Hin) as ->.
    destruct (propertySchema_flat propType) as (Hty & Hit & Hpr).
    repeat split; try done. by exists propType.
Qed.

Lemma property_fragments_are_flat_witness :
  (∃ n, n ∈ schemaTypeNames ∧ type (typeSchema "array") = Some n)
  ∧ items (typeSchema "array") = None
  ∧ properties (typeSchema "array") = None
  ∧ ∃ propType, ("messages", true, propType) ∈ getProperties Inbox
                ∧ typeSchema "array" = propertySchema propType.
Proof.
  apply (property_fragments_are_flat Inbox (create None None [])
           (create None None [])
           (objectSchema (collectProperties (getProperties Inbox)))
           (collectProperties (getProperties Inbox)) "messages"
           (typeSchema "array")); reflexivity.
Defined.

(** X3. For an object type whose properties all have a value
    declaration, the [properties] of the schema have exactly the names of
    the properties as keys, the name [__proto__] apart, which is stored
    under no key; an object type without properties gives [{type: 'object',
    properties: {}}]. *)
Theorem object_schema_has_every_property
    (t : Type_) (g : OpenAPIGenerator) :
  isArray t = false → isEnum t = false → isObject t = true →
  forallb hasValueDeclaration (getProperties t) = true →
  ∃ props : gmap string SchemaObject,
    getSchemaForType t g = (Return (objectSchema props), g)
    ∧ dom props = list_to_set (getName <$> getProperties t) ∖ {["__proto__"]}
    ∧ (getProperties t = [] → props = ∅).
Proof.
  intros Ha He Ho Hdecl. exists (collectProperties (getProperties t)).
  split; [|split].
  - rewrite getSchemaForType_object by done. by rewrite Hdecl.
  - apply collectProperties_dom.
  - by intros ->.
Qed.

Lemma object_schema_has_every_property_witness :
  ∃ props : gmap string SchemaObject,
    getSchemaForType User (create None None [])
    = (Return (objectSchema props), create None None [])
    ∧ dom props
      = list_to_set (getName <$> getProperties User) ∖ {["__proto__"]}
    ∧ (getProperties User = [] → props = ∅).
Proof.
  apply (object_schema_has_every_property User (create None None []));
    reflexivity.
Defined.

Lemma getSchemaForType_nested (n : nat) (t : Type_) (g : OpenAPIGenerator) :
  getSchemaForType (nestedArrayType n t) g
  = match getSchemaForType t g with
    | (Return s, g') => (Return (Nat.iter n arraySchema s), g')
    | (Throw x, g') => (Throw x, g')
    end.
Proof.
  induction n as [|n IH]; simpl.
  - by destruct (getSchemaForType t g) as [[s|x] g'].
  - unfold bind. fold (nestedArrayType n t). rewrite IH.
    by destruct (getSchemaForType t g) as [[s|x] g'].
Qed.

(** X4. Arrays nest to any depth: the schema of [T[]...[]] with [n]
    pairs of brackets is the schema of [T] wrapped [n] times in [{type:
    'array', items: ...}]. *)
Theorem nested_arrays_nest_schemas
    (n : nat) (t : Type_) (g : OpenAPIGenerator) (s : SchemaObject) :
  getSchemaForType t g = (Return s, g) →
  getSchemaForType (nestedArrayType n t) g
  = (Return (Nat.iter n arraySchema s), g).
Proof. intros Hs. by rewrite getSchemaForType_nested, Hs. Qed.

Lemma nested_arrays_nest_schemas_witness :
  getSchemaForType (nestedArrayType 3 stringType) (create None None [])
  = (Return (Nat.iter 3 arraySchema (typeSchema "string")), create None None []).
Proof.
  apply (nested_arrays_nest_schemas 3 stringType (create None None [])
           (typeSchema "string")).
  reflexivity.
Defined.


(** The mapped types of the examples are not inferable. *)
Example mapped_types_are_not_inferable :
  inferable NumberRecord = false ∧ inferable (arrayType ItemRecord) = false
  ∧ inferable UserList = true.
Proof. done. Qed.


(** ** Resolution and the schema registry *)

Lemma findTypeAlias_Some (typeName : string) (sourceFiles : list SourceFile)
    (typeAlias : TypeAliasDeclaration) :
  findTypeAlias typeName sourceFiles = Some typeAlias →
  ∃ pre sourceFile post,
    sourceFiles = (pre ++ sourceFile :: post)%list
    ∧ Forall (λ sf, ¬ declares sf typeName) pre
    ∧ getTypeAlias sourceFile typeName = Return (Some typeAlias).
Proof.
  induction sourceFiles as [|sf rest IH]; [done|]. simpl.
  destruct (getTypeAlias sf typeName) as [[a|]|x] eqn:Hl; intros Hf.
  - simplify_eq. by exists [], sf, rest.
  - destruct (IH Hf) as (pre & s & post & -> & Hpre & Hs).
    exists (sf :: pre), s, post. split; [done|]. split; [|done].
    constructor; [|done]. intros [a Ha]. congruence.
  - destruct (IH Hf) as (pre & s & post & -> & Hpre & Hs).
    exists (sf :: pre), s, post. split; [done|]. split; [|done].
    constructor; [|done]. intros [a Ha]. congruence.
Qed.

(** X6. The scan of the sources finds a declaration exactly when some
    source of the project declares the name, and the declaration it finds is
    one a source of the project answers for that name. *)
Theorem resolution_finds_exactly_declared_names
    (typeName : string) (sourceFiles : list SourceFile) :
  (is_Some (findTypeAlias typeName sourceFiles)
   ↔ ∃ sourceFile, sourceFile ∈ sourceFiles ∧ declares sourceFile typeName)
  ∧ (∀ typeAlias, findTypeAlias typeName sourceFiles = Some typeAlias →
       ∃ sourceFile, sourceFile ∈ sourceFiles
         ∧ getTypeAlias sourceFile typeName = Return (Some typeAlias)).
Proof.
  assert (∀ typeAlias, findTypeAlias typeName sourceFiles = Some typeAlias →
            ∃ sourceFile, sourceFile ∈ sourceFiles
              ∧ getTypeAlias sourceFile typeName = Return (Some typeAlias))
    as Hsound.
  { intros a Hf.
    destruct (findTypeAlias_Some _ _ _ Hf) as (pre & sf & post & -> & _ & Hs).
    exists sf. split; [|done]. apply elem_of_app. right. by left. }
  split; [|done]. split.
  - intros [a Hf]. destruct (Hsound a Hf) as (sf & Hin & Hs).
    exists sf. split; [done|]. by exists a.
  - intros (sf & Hin & Hdecl).
    destruct (findTypeAlias typeName sourceFiles) eqn:Hf; [done|].
    exfalso. clear Hsound. induction sourceFiles as [|s rest IH].
    + by apply elem_of_nil in Hin.
    + simpl in Hf. destruct Hdecl as [a Ha].
      apply elem_of_cons in Hin as [->|Hin].
      * by rewrite Ha in Hf.
      * destruct (getTypeAlias s typeName) as [[?|]|?]; [done|..];
          by apply IH.
Qed.

Lemma extractTypeSchema_cases (typeName : string) (g : OpenAPIGenerator) :
  (∃ x, extractTypeSchema typeName g = (Throw x, g))
  ∨ (∃ s typeAlias,
       findTypeAlias typeName (project g) = Some typeAlias
       ∧ getSchemaForType (getType typeAlias) g = (Return s, g)
       ∧ extractTypeSchema typeName g
         = (Return s, {| spec := registerSchema typeName s (spec g);
                         project := project g;
                         Object_prototype := Object_prototype g |})).
Proof.
  destruct (findTypeAlias typeName (project g)) as [a|] eqn:Hf.
  - destruct (getSchemaForType_pure (getType a)) as [[s|x] Hr].
    + right. exists s, a. split; [done|]. split; [done|].
      by rewrite (extractTypeSchema_found _ _ a (Return s)).
    + left. exists x. by rewrite (extractTypeSchema_found _ _ a (Throw x)).
  - left. eexists. by apply extractTypeSchema_not_found.
Qed.

Lemma registerSchema_registry (typeName : string) (s : SchemaObject)
    (g : OpenAPIGenerator) :
  registry {| spec := registerSchema typeName s (spec g);
              project := project g;
              Object_prototype := Object_prototype g |}
  = assign typeName s <$> registry g.
Proof.
  unfold registry, registerSchema. simpl.
  destruct (components (spec g)) as [c|] eqn:Hc; simpl; [|by rewrite Hc].
  destruct (schemas c) as [reg|] eqn:Hreg; simpl; [done|].
  rewrite Hc. simpl. by rewrite Hreg.
Qed.

Lemma registerSchema_absent (typeName : string) (s : SchemaObject)
    (doc : OpenAPIObject) :
  (c ← components doc; schemas c) = None →
  registerSchema typeName s doc = doc.
Proof.
  unfold registerSchema. destruct (components doc) as [c|]; [|done]. simpl.
  by intros ->.
Qed.

Lemma assign_assign {A} (key : string) (value : A) (obj : gmap string A) :
  assign key value (assign key value obj) = assign key value obj.
Proof.
  unfold assign. destruct (decide (key = "__proto__")) as [->|Hne].
  - destruct (obj !! "__proto__") eqn:Hown.
    + rewrite lookup_insert_eq. apply insert_insert_eq.
    + by rewrite Hown.
  - apply insert_insert_eq.
Qed.

Lemma registerSchema_twice (typeName : string) (s : SchemaObject)
    (doc : OpenAPIObject) :
  registerSchema typeName s (registerSchema typeName s doc)
  = registerSchema typeName s doc.
Proof.
  unfold registerSchema at 2 3.
  destruct (components doc) as [c|] eqn:Hc.
  - destruct (schemas c) as [reg|] eqn:Hreg.
    + unfold registerSchema. simpl. by rewrite assign_assign.
    + unfold registerSchema. by rewrite Hc, Hreg.
  - unfold registerSchema. by rewrite Hc.
Qed.

Lemma registryEntry_registry (g : OpenAPIGenerator) (typeName : string) :
  registryEntry g typeName = (reg ← registry g; reg !! typeName).
Proof.
  unfold registryEntry, registry. by destruct (components (spec g)).
Qed.

(** X7. When [extractTypeSchema] returns and the document has a schema
    registry, the entry under the name is the returned schema, whatever was
    there before, unless the name is [__proto__]; the entries of other
    names, the paths, servers, info, security schemes and project are as
    they were. *)
Theorem returned_schema_is_the_registered_one
    (typeName : string) (g g' : OpenAPIGenerator) (s : SchemaObject) :
  extractTypeSchema typeName g = (Return s, g') →
  is_Some (registry g) →
  (typeName ≠ "__proto__" → registryEntry g' typeName = Some s)
  ∧ (∀ other, other ≠ typeName →
       registryEntry g' other = registryEntry g other)
  ∧ paths (spec g') = paths (spec g)
  ∧ servers (spec g') = servers (spec g)
  ∧ info (spec g') = info (spec g)
  ∧ (∀ schemeName,
       securitySchemeEntry g' schemeName = securitySchemeEntry g schemeName)
  ∧ project g' = project g.
Proof.
  intros Hret [reg Hreg].
  destruct (extractTypeSchema_cases typeName g) as [[x Hx]|(s' & a & _ & _ & Hs)];
    [congruence|].
  rewrite Hs in Hret. simplify_eq.
  assert (∀ n, registryEntry
                 {| spec := registerSchema typeName s (spec g);
                    project := project g;
                    Object_prototype := Object_prototype g |} n
               = assign typeName s reg !! n) as Hentry.
  { intros n. by rewrite registryEntry_registry, registerSchema_registry, Hreg. }
  assert (∀ n, registryEntry g n = reg !! n) as Hold.
  { intros n. by rewrite registryEntry_registry, Hreg. }
  split; [intros Hname; rewrite Hentry; by apply lookup_assign_eq|]. split.
  { intros other Hne. by rewrite Hentry, Hold, lookup_assign_ne. }
  unfold securitySchemeEntry, registerSchema. unfold registry in Hreg.
  destruct (components (spec g)) as [c|]; [|done]. simpl in *.
  by rewrite Hreg.
Qed.

Lemma returned_schema_is_the_registered_one_witness :
  let g := create None None [sourceB] in
  let s := objectSchema (collectProperties (getProperties User)) in
  let g' := {| spec := registerSchema "User" s (spec g); project := project g;
               Object_prototype := Object_prototype g |} in
  registryEntry g' "User" = Some s
  ∧ (∀ other, other ≠ "User" → registryEntry g' other = registryEntry g other)
  ∧ paths (spec g') = paths (spec g)
  ∧ servers (spec g') = servers (spec g)
  ∧ info (spec g') = info (spec g)
  ∧ (∀ schemeName,
       securitySchemeEntry g' schemeName = securitySchemeEntry g schemeName)
  ∧ project g' = project g.
Proof.
  intros g s g'.
  destruct (returned_schema_is_the_registered_one "User" g g' s)
    as (Hentry & Hrest).
  - vm_compute. reflexivity.
  - by eexists.
  - split; [by apply Hentry|exact Hrest].
Defined.

(** X8. Resolving the same name again changes nothing: run in the
    generator left by a first call, [extractTypeSchema] completes with the
    same result and leaves that generator as it is. *)
Theorem extractTypeSchema_twice (typeName : string) (g : OpenAPIGenerator) :
  extractTypeSchema typeName (extractTypeSchema typeName g).2
  = extractTypeSchema typeName g.
Proof.
  destruct (extractTypeSchema_cases typeName g)
    as [[x Hx]|(s & a & Hf & Hs & Hret)].
  - by rewrite Hx.
  - rewrite Hret. simpl.
    destruct (getSchemaForType_pure (getType a)) as [r Hr].
    rewrite Hr in Hs. simplify_eq.
    rewrite (extractTypeSchema_found typeName _ a (Return s)) by done.
    simpl. by rewrite registerSchema_twice.
Qed.

(** X9. When the document has no schema registry ([components] or
    [components.schemas] is missing) [extractTypeSchema] leaves the generator
    unchanged and still returns the inferred schema. *)
Theorem extractTypeSchema_without_registry
    (typeName : string) (g : OpenAPIGenerator) :
  registry g = None →
  (extractTypeSchema typeName g).2 = g
  ∧ (∀ typeAlias s,
       findTypeAlias typeName (project g) = Some typeAlias →
       getSchemaForType (getType typeAlias) g = (Return s, g) →
       extractTypeSchema typeName g = (Return s, g)).
Proof.
  intros Hnone.
  assert (∀ s, {| spec := registerSchema typeName s (spec g);
                  project := project g;
                  Object_prototype := Object_prototype g |} = g) as Hsame.
  { intros s. rewrite registerSchema_absent by done. by destruct g. }
  split.
  - destruct (extractTypeSchema_cases typeName g)
      as [[x Hx]|(s & a & Hf & Hs & Hret)].
    + by rewrite Hx.
    + rewrite Hret. simpl. apply Hsame.
  - intros a s Hf Hs.
    rewrite (extractTypeSchema_found _ _ a (Return s)) by done.
    by rewrite Hsame.
Qed.

Lemma extractTypeSchema_without_registry_witness :
  (extractTypeSchema "User" (bareGenerator [sourceB])).2 = bareGenerator [sourceB]
  ∧ extractTypeSchema "User" (bareGenerator [sourceB])
    = (Return (objectSchema (collectProperties (getProperties User))),
       bareGenerator [sourceB]).
Proof.
  destruct (extractTypeSchema_without_registry "User" (bareGenerator [sourceB])
              eq_refl) as [Hstate Hret].
  split; [exact Hstate|].
  apply (Hret {| getType := User |}); reflexivity.
Defined.




(** ** Security schemes, servers and the frame of addRoute *)

(** X11. [addSecurityScheme] always returns; afterwards the scheme is
    stored under its name (replacing an earlier one) unless the name is
    [__proto__], under which nothing is added; other schemes and all registry
    entries are as before, paths and servers are untouched, and a document
    that had no [components] now has an empty schema registry. *)
Theorem addSecurityScheme_stores_scheme
    (schemeName : string) (scheme : SecurityScheme) (g : OpenAPIGenerator) :
  ∃ g', addSecurityScheme schemeName scheme g = (Return (), g')
    ∧ (schemeName ≠ "__proto__" →
         securitySchemeEntry g' schemeName = Some scheme)
    ∧ (schemeName = "__proto__" → securitySchemeEntry g schemeName = None →
         securitySchemeEntry g' schemeName = None)
    ∧ (∀ other, other ≠ schemeName →
         securitySchemeEntry g' other = securitySchemeEntry g other)
    ∧ (∀ typeName, registryEntry g' typeName = registryEntry g typeName)
    ∧ registry g' = match components (spec g) with
                    | Some _ => registry g
                    | None => Some ∅
                    end
    ∧ paths (spec g') = paths (spec g)
    ∧ servers (spec g') = servers (spec g).
Proof.
  exists (addSecurityScheme schemeName scheme g).2. split; [done|].
  unfold securitySchemeEntry, registryEntry, registry. simpl.
  destruct (components (spec g)) as [c|]; simpl.
  - split; [by apply lookup_assign_eq|]. split.
    { intros -> Hnone. rewrite lookup_assign_proto.
      destruct (securitySchemes c); simpl in *; [by rewrite Hnone|done]. }
    split; [|done].
    intros other Hne. rewrite lookup_assign_ne by done.
    by destruct (securitySchemes c).
  - split; [by apply lookup_assign_eq|]. split.
    { intros -> _. by rewrite lookup_assign_proto. }
    split; [|done].
    intros other Hne. by rewrite lookup_assign_ne.
Qed.

Lemma addServer_spec (server : ServerConfiguration) (g : OpenAPIGenerator) :
  ∃ g', addServer server g = (Return (), g')
    ∧ servers (spec g') = Some (default [] (servers (spec g)) ++ [server])%list
    ∧ paths (spec g') = paths (spec g)
    ∧ components (spec g') = components (spec g)
    ∧ info (spec g') = info (spec g)
    ∧ project g' = project g.
Proof. by exists (addServer server g).2. Qed.

(** X12. Calling [addServer] for each server of a list always returns
    and appends the servers, in call order, after those already present
    (none when [servers] was missing); paths, components and info are
    untouched. *)
Theorem addServer_appends_in_call_order
    (newServers : list ServerConfiguration) (g : OpenAPIGenerator) :
  ∃ g', forEach addServer newServers g = (Return (), g')
    ∧ default [] (servers (spec g'))
      = (default [] (servers (spec g)) ++ newServers)%list
    ∧ paths (spec g') = paths (spec g)
    ∧ components (spec g') = components (spec g)
    ∧ info (spec g') = info (spec g).
Proof.
  revert g. induction newServers as [|server rest IH]; intros g.
  - exists g. by rewrite app_nil_r.
  - destruct (addServer_spec server g) as (g1 & H1 & Hs & Hp & Hc & Hi & _).
    destruct (IH g1) as (g2 & H2 & Hs2 & Hp2 & Hc2 & Hi2).
    exists g2. simpl. unfold bind. rewrite H1, H2.
    split; [done|]. rewrite Hs2, Hs. simpl.
    split; [by rewrite <- app_assoc|]. split; [congruence|].
    split; congruence.
Qed.

(** The expectations of the tests on servers and security schemes. *)
Example two_servers_in_order :
  fmap (M := list) url <$> servers (spec (forEach addServer [productionServer; stagingServer]
                                 (create (Some "Test API") (Some "1.0.0") [])).2)
  = Some ["https://api.example.com/v1"; "https://staging-api.example.com/v1"].
Proof. reflexivity. Qed.

Example bearerAuth_is_stored :
  ss_type <$> securitySchemeEntry
                (addSecurityScheme "bearerAuth" bearerAuth
                   (create (Some "Test API") (Some "1.0.0") [])).2 "bearerAuth"
  = Some "http".
Proof. reflexivity. Qed.

(** ** Frames *)

Lemma registryGrows_refl (g : OpenAPIGenerator) : registryGrows g g.
Proof. unfold registryGrows. by split_and!. Qed.

Lemma registryGrows_trans (g1 g2 g3 : OpenAPIGenerator) :
  registryGrows g1 g2 → registryGrows g2 g3 → registryGrows g1 g3.
Proof.
  intros (? & ? & ? & ? & ? & ? & Hs1 & Hr1) (? & ? & ? & ? & ? & ? & Hs2 & Hr2).
  unfold registryGrows. split_and!; try congruence.
  intros n Hn. by apply Hr2, Hr1.
Qed.

Lemma registerSchema_grows (typeName : string) (s : SchemaObject)
    (g : OpenAPIGenerator) :
  registryGrows g {| spec := registerSchema typeName s (spec g);
                     project := project g;
                     Object_prototype := Object_prototype g |}.
Proof.
  destruct (components (spec g) ≫= schemas) as [reg|] eqn:Hreg.
  - unfold registryGrows, securitySchemeEntry, registryEntry, registerSchema.
    destruct (components (spec g)) as [c|]; [|done]. simpl in Hreg.
    rewrite Hreg. simpl. split_and!; try done.
    intros n. rewrite Hreg. simpl. apply lookup_assign_is_Some.
  - rewrite registerSchema_absent by done. destruct g. apply registryGrows_refl.
Qed.

Lemma extractTypeSchema_grows (typeName : string) (g : OpenAPIGenerator) :
  registryGrows g (extractTypeSchema typeName g).2.
Proof.
  destruct (findTypeAlias typeName (project g)) as [a|] eqn:Hf.
  - destruct (getSchemaForType_pure (getType a)) as [r Hr].
    rewrite (extractTypeSchema_found _ _ a r) by done.
    destruct r; [apply registerSchema_grows|apply registryGrows_refl].
  - rewrite extractTypeSchema_not_found by done. apply registryGrows_refl.
Qed.

Lemma addResponses_grows (route : RouteDefinition)
    (acc : gmap string ResponseObject) (rs : list ResponseDefinition)
    (g : OpenAPIGenerator) :
  registryGrows g (addResponses route acc rs g).2.
Proof.
  revert acc g. induction rs as [|r rs IH]; intros acc g; simpl.
  - apply registryGrows_refl.
  - unfold bind, addResponse at 1, bind.
    destruct (truthy (rd_type r)) as [n|].
    + pose proof (extractTypeSchema_grows n g) as Hg.
      destruct (extractTypeSchema n g) as [[s|x] g1]; simpl in *; [|done].
      eapply registryGrows_trans; [done|apply IH].
    + apply IH.
Qed.

(** ** The steps of addRoute *)

Lemma Object_prototype_withPathItem (route : RouteDefinition)
    (g : OpenAPIGenerator) :
  Object_prototype (withPathItem route g) = Object_prototype g.
Proof. unfold withPathItem. by repeat case_match. Qed.

Lemma project_withPathItem (route : RouteDefinition) (g : OpenAPIGenerator) :
  project (withPathItem route g) = project g.
Proof. unfold withPathItem. by repeat case_match. Qed.

(** The parameters read the generator only for what is stored on
    [Object.prototype]. *)
Lemma routeParameters_ext (g1 g2 : OpenAPIGenerator) (route : RouteDefinition) :
  Object_prototype g1 = Object_prototype g2 →
  routeParameters g1 route = routeParameters g2 route.
Proof.
  intros Heq. unfold routeParameters, pathParameter, parameterDescription,
    storedOperation. by rewrite Heq.
Qed.

Lemma operationFor_ext (g1 g2 : OpenAPIGenerator) (route : RouteDefinition)
    (body : option SchemaObject) (resps : gmap string ResponseObject) :
  Object_prototype g1 = Object_prototype g2 →
  operationFor g1 route body resps = operationFor g2 route body resps.
Proof.
  intros Heq. unfold operationFor. by rewrite (routeParameters_ext g1 g2).
Qed.

Lemma addRoute_unfold (route : RouteDefinition) (g : OpenAPIGenerator) :
  addRoute route g =
    match requestBodySchema route (withPathItem route g) with
    | (Throw x, g1) => (Throw x, g1)
    | (Return body, g1) =>
        match addResponses route ∅ (responses route) g1 with
        | (Throw x, g2) => (Throw x, g2)
        | (Return resps, g2) =>
            (Return (),
             withOperation route
               (operationFor (withPathItem route g) route body resps) g2)
        end
    end.
Proof.
  assert (∀ g0,
    (let* g := this in
     let params := routeParameters g route in
     let* body := match truthy (requestType route) with
                  | Some typeName => let* s := extractTypeSchema typeName in
                                     ret (Some s)
                  | None => ret None
                  end in
     let* resps := addResponses route ∅ (responses route) in
     let operation :=
       {| op_description := orString (description route) "";
          op_responses := resps;
          op_parameters := match params with [] => None | _ => Some params end;
          op_security := securityRequirements <$> security route;
          op_requestBody := body |} in
     let* g := this in
     match paths (spec g) !! path route with
     | Some pathItem =>
         setSpec (setPaths (<[path route :=
                                <[methodKey (method route) := operation]> pathItem]>
                              (paths (spec g)))
                           (spec g))
     | None =>
         if decide (path route = "__proto__")
         then storeOnObjectPrototype (method route) operation
         else ret ()
     end) g0
    = match requestBodySchema route g0 with
      | (Throw x, g1) => (Throw x, g1)
      | (Return body, g1) =>
          match addResponses route ∅ (responses route) g1 with
          | (Throw x, g2) => (Throw x, g2)
          | (Return resps, g2) =>
              (Return (),
               withOperation route (operationFor g0 route body resps) g2)
          end
      end) as Hbody.
  { intros g0. unfold bind, this, requestBodySchema. simpl.
    destruct (truthy (requestType route)); simpl; unfold bind.
    - destruct (extractTypeSchema _ _) as [[?|?] g1]; simpl; [|done].
      destruct (addResponses _ _ _ _) as [[?|?] g2]; [|done].
      unfold withOperation, operationFor, setSpec, ret.
      destruct (paths (spec g2) !! path route); [|case_decide]; try done;
        by destruct (routeParameters g0 route).
    - destruct (addResponses _ _ _ _) as [[?|?] g2]; [|done].
      unfold withOperation, operationFor, setSpec, ret.
      destruct (paths (spec g2) !! path route); [|case_decide]; try done;
        by destruct (routeParameters g0 route). }
  unfold addRoute. unfold bind at 1. unfold this at 1. unfold bind at 1.
  rewrite <- Hbody. unfold withPathItem.
  destruct (paths (spec g) !! path route); [done|].
  by destruct (inherited g (path route)).
Qed.

Lemma requestBodySchema_grows (route : RouteDefinition) (g : OpenAPIGenerator) :
  registryGrows g (requestBodySchema route g).2.
Proof.
  unfold requestBodySchema. destruct (truthy (requestType route)) as [n|].
  - unfold bind. pose proof (extractTypeSchema_grows n g) as Hg.
    by destruct (extractTypeSchema n g) as [[s|x] g1].
  - apply registryGrows_refl.
Qed.

Lemma registryGrows_keeps (g g' : OpenAPIGenerator) :
  registryGrows g g' → keepsDocument g g'.
Proof. unfold registryGrows, keepsDocument. naive_solver. Qed.

Lemma keepsDocument_trans (g1 g2 g3 : OpenAPIGenerator) :
  keepsDocument g1 g2 → keepsDocument g2 g3 → keepsDocument g1 g3.
Proof.
  intros (? & ? & ? & ? & Hs1 & Hr1) (? & ? & ? & ? & Hs2 & Hr2).
  unfold keepsDocument. split_and!; try congruence.
  intros n Hn. by apply Hr2, Hr1.
Qed.

Lemma withPathItem_keeps (route : RouteDefinition) (g : OpenAPIGenerator) :
  keepsDocument g (withPathItem route g).
Proof.
  unfold withPathItem, keepsDocument.
  destruct (paths (spec g) !! path route); [done|].
  by destruct (inherited g (path route)).
Qed.

Lemma withOperation_keeps (route : RouteDefinition) (op : OperationObject)
    (g : OpenAPIGenerator) :
  keepsDocument g (withOperation route op g).
Proof.
  unfold keepsDocument, withOperation.
  destruct (paths (spec g) !! path route); [|case_decide]; by split_and!.
Qed.

Lemma operationOf_withPathItem (route other : RouteDefinition)
    (g : OpenAPIGenerator) :
  operationOf (withPathItem route g) other = operationOf g other.
Proof.
  unfold withPathItem, operationOf.
  destruct (paths (spec g) !! path route) eqn:Hp; [done|].
  destruct (inherited g (path route)); [done|]. simpl.
  destruct (decide (path route = path other)) as [Heq|Hne].
  - rewrite <- Heq, lookup_insert_eq, Hp. done.
  - by rewrite lookup_insert_ne.
Qed.

(** After the first statement the route has its path item, unless the
    path is a name found on [Object.prototype] and no property of [paths]:
    then nothing is created. *)
Lemma paths_withPathItem (route : RouteDefinition) (g : OpenAPIGenerator) :
  (inherited g (path route) = false →
     is_Some (paths (spec (withPathItem route g)) !! path route))
  ∧ (inherited g (path route) = true → withPathItem route g = g)
  ∧ ∀ p, p ≠ path route →
      paths (spec (withPathItem route g)) !! p = paths (spec g) !! p.
Proof.
  unfold withPathItem.
  destruct (paths (spec g) !! path route) eqn:Hp; simpl.
  - split; [by rewrite Hp|done].
  - destruct (inherited g (path route)); simpl.
    + split; [done|]. done.
    + split; [by rewrite lookup_insert_eq|]. split; [done|].
      intros p Hne. by rewrite lookup_insert_ne.
Qed.

Lemma methodKey_inj (m1 m2 : Method) : methodKey m1 = methodKey m2 → m1 = m2.
Proof. by destruct m1, m2. Qed.

Lemma operationOf_withOperation_other (route other : RouteDefinition)
    (op : OperationObject) (g : OpenAPIGenerator) :
  path other ≠ path route ∨ method other ≠ method route →
  operationOf (withOperation route op g) other = operationOf g other.
Proof.
  intros Hother. unfold withOperation, operationOf.
  destruct (paths (spec g) !! path route) as [pathItem|] eqn:Hitem;
    [|by case_decide]. simpl.
  destruct (decide (path route = path other)) as [Heq|Hne].
  - rewrite <- Heq, lookup_insert_eq, Hitem. simpl.
    rewrite lookup_insert_ne; [done|].
    intros Hk%methodKey_inj. destruct Hother; congruence.
  - by rewrite lookup_insert_ne.
Qed.

(** The last statement stores the operation in the document when the
    route has its path item there, and leaves the document as it is
    otherwise. *)
Lemma operationOf_withOperation (route : RouteDefinition)
    (op : OperationObject) (g : OpenAPIGenerator) :
  is_Some (paths (spec g) !! path route) →
  operationOf (withOperation route op g) route = Some op.
Proof.
  intros [pathItem Hitem]. unfold withOperation, operationOf.
  rewrite Hitem. simpl. rewrite lookup_insert_eq. simpl.
  apply lookup_insert_eq.
Qed.

Lemma spec_withOperation_None (route : RouteDefinition)
    (op : OperationObject) (g : OpenAPIGenerator) :
  paths (spec g) !! path route = None →
  spec (withOperation route op g) = spec g.
Proof.
  intros Hitem. unfold withOperation. rewrite Hitem. by case_decide.
Qed.

(** What a run of addRoute goes through. *)
Lemma addRoute_run (route : RouteDefinition) (g : OpenAPIGenerator) :
  ∃ gm, registryGrows (withPathItem route g) gm
    ∧ ((∃ x, addRoute route g = (Throw x, gm))
       ∨ ∃ body g1 resps,
           requestBodySchema route (withPathItem route g) = (Return body, g1)
           ∧ addResponses route ∅ (responses route) g1 = (Return resps, gm)
           ∧ addRoute route g
             = (Return (),
                withOperation route (operationFor g route body resps) gm)).
Proof.
  rewrite addRoute_unfold.
  pose proof (requestBodySchema_grows route (withPathItem route g)) as H1.
  destruct (requestBodySchema route (withPathItem route g)) as [[body|x] g1]
    eqn:Hbody; simpl in H1.
  - pose proof (addResponses_grows route ∅ (responses route) g1) as H2.
    destruct (addResponses route ∅ (responses route) g1) as [[resps|x] g2]
      eqn:Hresps; simpl in H2.
    + exists g2. split; [by eapply registryGrows_trans|]. right.
      exists body, g1, resps.
      by rewrite (operationFor_ext (withPathItem route g) g)
        by apply Object_prototype_withPathItem.
    + exists g2. split; [by eapply registryGrows_trans|]. left. by exists x.
  - exists g1. split; [done|]. left. by exists x.
Qed.

(** X13. Whether it returns or throws, [addRoute] leaves the project,
    [openapi], [info], [servers] and the security schemes as they were and
    removes no entry of the schema registry. *)
Theorem addRoute_keeps_the_rest_of_the_document
    (route : RouteDefinition) (g : OpenAPIGenerator) :
  keepsDocument g (addRoute route g).2.
Proof.
  destruct (addRoute_run route g) as (gm & Hgrow & [[x ->]|(b & g1 & r & _ & _ & ->)]);
    simpl.
  - eapply keepsDocument_trans; [apply withPathItem_keeps|].
    by apply registryGrows_keeps.
  - eapply keepsDocument_trans; [apply withPathItem_keeps|].
    eapply keepsDocument_trans; [by apply registryGrows_keeps|].
    apply withOperation_keeps.
Qed.

(** X14. Whether it returns or throws, [addRoute] leaves the operation
    of every other path or method as it was: two routes on one path with
    different methods both keep their operations. *)
Theorem addRoute_leaves_other_operations
    (route other : RouteDefinition) (g : OpenAPIGenerator) :
  path other ≠ path route ∨ method other ≠ method route →
  operationOf (addRoute route g).2 other = operationOf g other.
Proof.
  intros Hother.
  assert (∀ gm, registryGrows (withPathItem route g) gm →
                operationOf gm other = operationOf g other) as Hmid.
  { intros gm (_ & _ & Hp & _). unfold operationOf at 1. rewrite Hp.
    apply operationOf_withPathItem. }
  destruct (addRoute_run route g)
    as (gm & Hgrow & [[x ->]|(b & g1 & r & _ & _ & ->)]); simpl.
  - by apply Hmid.
  - rewrite operationOf_withOperation_other by done. by apply Hmid.
Qed.

Lemma addRoute_leaves_other_operations_witness :
  let g := (addRoute listUsersRoute (create None None [sourceB])).2 in
  operationOf (addRoute createUserRoute g).2 listUsersRoute
  = operationOf g listUsersRoute.
Proof.
  intros g.
  apply (addRoute_leaves_other_operations createUserRoute listUsersRoute g).
  right. discriminate.
Defined.

(** X15. When [addRoute] throws, no operation has been added, replaced
    or removed, for the route's own path and method either, and nothing has
    been stored on [Object.prototype].  The path item of the route exists
    afterwards, empty if it was created by the call, unless the path is a
    name found on [Object.prototype]: then [paths] is as it was.  The items
    of other paths are as they were. *)
Theorem failed_addRoute_adds_no_operation
    (route : RouteDefinition) (g g' : OpenAPIGenerator) (x : Exception) :
  addRoute route g = (Throw x, g') →
  (∀ other, operationOf g' other = operationOf g other)
  ∧ Object_prototype g' = Object_prototype g
  ∧ (inherited g (path route) = false →
       is_Some (paths (spec g') !! path route))
  ∧ (inherited g (path route) = true → paths (spec g') = paths (spec g))
  ∧ (∀ p, p ≠ path route → paths (spec g') !! p = paths (spec g) !! p).
Proof.
  intros Hthrow.
  destruct (addRoute_run route g)
    as (gm & (_ & Hproto & Hp & _) & [[y Hy]|(b & g1 & r & _ & _ & Hret)]);
    [|congruence].
  rewrite Hy in Hthrow. simplify_eq.
  destruct (paths_withPathItem route g) as (Hsome & Hsame & Hrest).
  split_and!.
  - intros other. unfold operationOf at 1. rewrite Hp.
    apply operationOf_withPathItem.
  - by rewrite Hproto, Object_prototype_withPathItem.
  - intros Hfresh. rewrite Hp. by apply Hsome.
  - intros Hinh. rewrite Hp. by rewrite Hsame.
  - intros p Hne. rewrite Hp. by apply Hrest.
Qed.

Lemma failed_addRoute_adds_no_operation_witness :
  let g := create None None [sourceB] in
  let g' := (addRoute ghostRoute g).2 in
  (∀ other, operationOf g' other = operationOf g other)
  ∧ Object_prototype g' = Object_prototype g
  ∧ (inherited g (path ghostRoute) = false →
       is_Some (paths (spec g') !! path ghostRoute))
  ∧ (inherited g (path ghostRoute) = true → paths (spec g') = paths (spec g))
  ∧ (∀ p, p ≠ path ghostRoute → paths (spec g') !! p = paths (spec g) !! p).
Proof.
  intros g g'.
  apply (failed_addRoute_adds_no_operation ghostRoute g g'
           (Error (notFoundMessage "Ghost"))).
  vm_compute. reflexivity.
Defined.

(** ** The operation stored by addRoute *)

Lemma extractTypeSchema_Return (typeName : string) (g g' : OpenAPIGenerator)
    (s : SchemaObject) :
  extractTypeSchema typeName g = (Return s, g') →
  resolvesTo (project g) typeName s
  ∧ g' = {| spec := registerSchema typeName s (spec g); project := project g;
            Object_prototype := Object_prototype g |}.
Proof.
  intros Hret.
  destruct (findTypeAlias typeName (project g)) as [a|] eqn:Hf.
  - destruct (getSchemaForType_pure (getType a)) as [r Hr].
    rewrite (extractTypeSchema_found _ _ a r) in Hret by done.
    destruct r; simplify_eq. split; [|done]. by exists a.
  - by rewrite extractTypeSchema_not_found in Hret.
Qed.

Lemma addResponses_Return (route : RouteDefinition)
    (acc : gmap string ResponseObject) (rs : list ResponseDefinition)
    (g g' : OpenAPIGenerator) (resps : gmap string ResponseObject) :
  addResponses route acc rs g = (Return resps, g') →
  dom resps
  = dom acc ∪ list_to_set ((λ r, numberToString (statusCode r)) <$> rs)
  ∧ ∀ k ro, resps !! k = Some ro →
      acc !! k = Some ro
      ∨ ∃ r, r ∈ rs ∧ k = numberToString (statusCode r)
          ∧ ro_description ro = rd_description r
          ∧ ro_headers ro = responseHeaders <$> (headers route ≫= response)
          ∧ match truthy (rd_type r) with
            | Some typeName => resolvesTo (project g) typeName (ro_schema ro)
            | None => ro_schema ro = emptySchema
            end.
Proof.
  revert acc g. induction rs as [|r rs IH]; intros acc g Hret; simpl in *.
  - unfold ret in Hret. simplify_eq. split; [set_solver|]. by left.
  - unfold bind, addResponse at 1, bind in Hret.
    destruct (truthy (rd_type r)) as [n|] eqn:Hn; simpl in Hret.
    + destruct (extractTypeSchema n g) as [[s|x] g1] eqn:He; [|done].
      simpl in Hret.
      destruct (extractTypeSchema_Return _ _ _ _ He) as [Hres Hg1].
      assert (project g1 = project g) as Hp by by rewrite Hg1.
      destruct (IH _ _ Hret) as [Hdom Hentries]. split.
      * rewrite Hdom, dom_insert_L. set_solver.
      * intros k ro Hk. destruct (Hentries k ro Hk) as [Hacc|(r' & Hin & Hrest)].
        -- destruct (decide (numberToString (statusCode r) = k)) as [<-|Hne].
           ++ rewrite lookup_insert_eq in Hacc. simplify_eq. right.
              exists r. split; [by left|]. simpl. rewrite Hn. done.
           ++ rewrite lookup_insert_ne in Hacc by done. by left.
        -- right. exists r'. split; [by right|]. by rewrite <- Hp.
    + destruct (IH _ _ Hret) as [Hdom Hentries]. split.
      * rewrite Hdom, dom_insert_L. set_solver.
      * intros k ro Hk. destruct (Hentries k ro Hk) as [Hacc|(r' & Hin & Hrest)].
        -- destruct (decide (numberToString (statusCode r) = k)) as [<-|Hne].
           ++ rewrite lookup_insert_eq in Hacc. simplify_eq. right.
              exists r. split; [by left|]. simpl. rewrite Hn. done.
           ++ rewrite lookup_insert_ne in Hacc by done. by left.
        -- right. exists r'. split; [by right|]. done.
Qed.

(** A successful [addRoute] has stored its operation in the document when
    the path is not a name found on [Object.prototype], and the operation
    found in the document under the route afterwards is the one it has
    assembled. *)
Lemma addRoute_Return (route : RouteDefinition) (g g' : OpenAPIGenerator)
    (u : ()) :
  addRoute route g = (Return u, g') →
  ∃ body g1 resps gm,
    requestBodySchema route (withPathItem route g) = (Return body, g1)
    ∧ addResponses route ∅ (responses route) g1 = (Return resps, gm)
    ∧ g' = withOperation route (operationFor g route body resps) gm
    ∧ (inherited g (path route) = false →
         operationOf g' route = Some (operationFor g route body resps))
    ∧ (∀ op, operationOf g' route = Some op →
         op = operationFor g route body resps).
Proof.
  intros Hret.
  destruct (addRoute_run route g)
    as (gm & (_ & _ & Hp & _) & [[x Hx]|(b & g1 & r & Hb & Hr & Hra)]);
    [congruence|].
  rewrite Hra in Hret. simplify_eq.
  exists b, g1, r, gm. split_and!; try done.
  - intros Hfresh. apply operationOf_withOperation. rewrite Hp.
    by apply paths_withPathItem.
  - intros op Hop.
    destruct (paths (spec gm) !! path route) as [pathItem|] eqn:Hitem.
    + rewrite operationOf_withOperation in Hop by by eexists. by simplify_eq.
    + unfold operationOf in Hop.
      rewrite spec_withOperation_None in Hop by done.
      by rewrite Hitem in Hop.
Qed.

(** Under a path that is a name of [Object.prototype] the document
    receives neither a path item nor the operation: under ["constructor"] the
    operation lands on the function [Object], under ["__proto__"] on
    [Object.prototype] itself. *)
Example route_under_inherited_name_stores_no_operation :
  let g := create None None [] in
  (addRoute constructorRoute g).1 = Return ()
  ∧ operationOf (addRoute constructorRoute g).2 constructorRoute = None
  ∧ paths (spec (addRoute constructorRoute g).2) = ∅
  ∧ (addRoute protoRoute g).1 = Return ()
  ∧ paths (spec (addRoute protoRoute g).2) = ∅
  ∧ op_description <$> Object_prototype (addRoute protoRoute g).2 get
    = Some "Prototype".
Proof. vm_compute. by split_and!. Qed.

(** What has been stored on [Object.prototype] is found by later reads: a
    path named as the method is then taken to have its path item, and a
    path parameter named as the method, for which the route declares
    nothing, takes the description of the stored operation. *)
Example operation_on_Object_prototype_is_inherited :
  let g := (addRoute protoRoute (create None None [])).2 in
  inherited g "get" = true
  ∧ inherited (create None None []) "get" = false
  ∧ (po_description <$> routeParameters g getParameterRoute)
    = [Some "Prototype"]
  ∧ (po_description
       <$> routeParameters (create None None []) getParameterRoute)
    = [Some "get parameter"].
Proof. vm_compute. by split_and!. Qed.

(** X26. A successful [addRoute] under a path that is no property of
    [paths] but a name found on [Object.prototype] leaves [paths] as it was.
    Under ["__proto__"] the operation is stored on [Object.prototype] itself,
    under the name of the method, where the other methods keep what they
    had; under every other path, and whenever the route has its path item in
    [paths], [Object.prototype] is left as it was. *)
Theorem addRoute_under_inherited_name
    (route : RouteDefinition) (g g' : OpenAPIGenerator) (u : ()) :
  addRoute route g = (Return u, g') →
  (paths (spec g) !! path route = None → inherited g (path route) = true →
     paths (spec g') = paths (spec g)
     ∧ (path route = "__proto__" →
          ∃ op, Object_prototype g' (method route) = Some op
            ∧ op_description op = orString (description route) ""
            ∧ ∀ m, m ≠ method route →
                Object_prototype g' m = Object_prototype g m))
  ∧ (path route ≠ "__proto__" ∨ is_Some (paths (spec g) !! path route) →
       Object_prototype g' = Object_prototype g).
Proof.
  intros Hret.
  destruct (addRoute_run route g)
    as (gm & (_ & Hproto & Hp & _) & [[x Hx]|(b & g1 & r & _ & _ & Hra)]);
    [congruence|].
  rewrite Hra in Hret. simplify_eq.
  rewrite Object_prototype_withPathItem in Hproto.
  destruct (paths_withPathItem route g) as (Hsome & Hsame & _).
  split.
  - intros Hnone Hinh. rewrite Hsame in Hp by done.
    assert (paths (spec gm) !! path route = None) as Hitem by by rewrite Hp.
    split; [by rewrite spec_withOperation_None|].
    intros Hpath. unfold withOperation. rewrite Hitem.
    rewrite decide_True by done. simpl.
    exists (operationFor g route b r). split_and!.
    + by rewrite decide_True.
    + done.
    + intros m Hm. rewrite decide_False; [by rewrite Hproto|].
      by intros ?%methodKey_inj.
  - intros Hcase. unfold withOperation.
    destruct (paths (spec gm) !! path route) as [pathItem|] eqn:Hitem;
      [done|].
    destruct Hcase as [Hne|Hown].
    + by rewrite decide_False.
    + exfalso. rewrite Hp in Hitem. unfold withPathItem in Hitem.
      destruct Hown as [item Hown]. rewrite Hown in Hitem. congruence.
Qed.

Lemma addRoute_under_inherited_name_witness :
  let g := create None None [] in
  let g' := (addRoute protoRoute g).2 in
  paths (spec g') = paths (spec g)
  ∧ ∃ op, Object_prototype g' (method protoRoute) = Some op
      ∧ op_description op = orString (description protoRoute) ""
      ∧ ∀ m, m ≠ method protoRoute →
          Object_prototype g' m = Object_prototype g m.
Proof.
  intros g g'.
  destruct (addRoute_under_inherited_name protoRoute g g' ()) as [Hinh _].
  { vm_compute. reflexivity. }
  destruct Hinh as [Hpaths Hstored]; [reflexivity|reflexivity|].
  split; [exact Hpaths|]. by apply Hstored.
Defined.

(** X18. In the operation stored by a successful [addRoute], for status
    codes that are safe integers, the keys of [responses] are exactly the
    decimal status codes of the declared responses, and every response
    object comes from a declared response with that code: it has its
    description, the route's response headers, and as schema the resolved
    schema of its type, or [{}] when it names no type.  The operation is
    stored unless the path is a name found on [Object.prototype]. *)
Theorem responses_are_keyed_by_status_code
    (route : RouteDefinition) (g g' : OpenAPIGenerator) (u : ()) :
  addRoute route g = (Return u, g') →
  Forall (λ r, safeInteger (statusCode r)) (responses route) →
  (inherited g (path route) = false → is_Some (operationOf g' route))
  ∧ ∀ op, operationOf g' route = Some op →
      dom (op_responses op)
      = list_to_set ((λ r, numberToString (statusCode r)) <$> responses route)
      ∧ ∀ k ro, op_responses op !! k = Some ro →
          ∃ r, r ∈ responses route ∧ k = numberToString (statusCode r)
            ∧ ro_description ro = rd_description r
            ∧ ro_headers ro = responseHeaders <$> (headers route ≫= response)
            ∧ match truthy (rd_type r) with
              | Some typeName => resolvesTo (project g) typeName (ro_schema ro)
              | None => ro_schema ro = emptySchema
              end.
Proof.
  intros Hret _.
  destruct (addRoute_Return _ _ _ _ Hret)
    as (b & g1 & r & gm & Hb & Hr & _ & Hstored & Hop).
  split; [intros Hfresh; rewrite Hstored by done; by eexists|].
  intros op ->%Hop. simpl.
  destruct (addResponses_Return _ _ _ _ _ _ Hr) as [Hdom Hentries].
  assert (project g1 = project g) as Hp.
  { pose proof (requestBodySchema_grows route (withPathItem route g)) as Hg.
    rewrite Hb in Hg. destruct Hg as [Hg _]. simpl in Hg.
    by rewrite Hg, project_withPathItem. }
  split.
  - rewrite Hdom, dom_empty_L. set_solver.
  - intros k ro Hk. destruct (Hentries k ro Hk) as [Habs|(r' & Hin & Hrest)].
    + by rewrite lookup_empty in Habs.
    + exists r'. split; [done|]. by rewrite <- Hp.
Qed.

Lemma responses_are_keyed_by_status_code_witness :
  let g := create None None [sourceB] in
  (inherited g (path headersRoute) = false →
     is_Some (operationOf (addRoute headersRoute g).2 headersRoute))
  ∧ ∀ op, operationOf (addRoute headersRoute g).2 headersRoute = Some op →
      dom (op_responses op)
      = list_to_set ((λ r, numberToString (statusCode r))
                       <$> responses headersRoute)
      ∧ ∀ k ro, op_responses op !! k = Some ro →
          ∃ r, r ∈ responses headersRoute ∧ k = numberToString (statusCode r)
            ∧ ro_description ro = rd_description r
            ∧ ro_headers ro
              = responseHeaders <$> (headers headersRoute ≫= response)
            ∧ match truthy (rd_type r) with
              | Some typeName => resolvesTo (project g) typeName (ro_schema ro)
              | None => ro_schema ro = emptySchema
              end.
Proof.
  intros g.
  apply (responses_are_keyed_by_status_code headersRoute g
           (addRoute headersRoute g).2 ()).
  - vm_compute. reflexivity.
  - repeat constructor; unfold safeInteger; simpl; lia.
Defined.

Lemma requestBodySchema_Return (route : RouteDefinition)
    (g g' : OpenAPIGenerator) (body : option SchemaObject) :
  requestBodySchema route g = (Return body, g') →
  match truthy (requestType route) with
  | Some typeName =>
      ∃ s, body = Some s ∧ resolvesTo (project g) typeName s
           ∧ g' = {| spec := registerSchema typeName s (spec g);
                     project := project g;
                     Object_prototype := Object_prototype g |}
  | None => body = None ∧ g' = g
  end.
Proof.
  unfold requestBodySchema. destruct (truthy (requestType route)) as [n|].
  - unfold bind. destruct (extractTypeSchema n g) as [[s|x] g1] eqn:He; [|done].
    intros Hret. unfold ret in Hret. simplify_eq.
    destruct (extractTypeSchema_Return _ _ _ _ He) as [Hres ->].
    by exists s.
  - unfold ret. intros; by simplify_eq.
Qed.

(** X19. In the operation stored by a successful [addRoute] the request
    body is present exactly when [requestType] is a non-empty string, and
    its schema is then the schema the name resolves to in the project.  The
    operation is stored unless the path is a name found on
    [Object.prototype]. *)
Theorem request_body_follows_requestType
    (route : RouteDefinition) (g g' : OpenAPIGenerator) (u : ()) :
  addRoute route g = (Return u, g') →
  (inherited g (path route) = false → is_Some (operationOf g' route))
  ∧ ∀ op, operationOf g' route = Some op →
      match truthy (requestType route) with
      | Some typeName =>
          ∃ s, op_requestBody op = Some s ∧ resolvesTo (project g) typeName s
      | None => op_requestBody op = None
      end.
Proof.
  intros Hret.
  destruct (addRoute_Return _ _ _ _ Hret)
    as (b & g1 & r & gm & Hb & _ & _ & Hstored & Hop).
  split; [intros Hfresh; rewrite Hstored by done; by eexists|].
  intros op ->%Hop. simpl.
  apply requestBodySchema_Return in Hb.
  destruct (truthy (requestType route)) as [n|].
  - destruct Hb as (s & -> & Hres & _). exists s. split; [done|].
    by rewrite project_withPathItem in Hres.
  - by destruct Hb.
Qed.

Lemma request_body_follows_requestType_witness :
  let g := create None None [sourceB] in
  ((inherited g (path createUserRoute) = false →
      is_Some (operationOf (addRoute createUserRoute g).2 createUserRoute))
   ∧ ∀ op, operationOf (addRoute createUserRoute g).2 createUserRoute = Some op →
       match truthy (requestType createUserRoute) with
       | Some typeName =>
           ∃ s, op_requestBody op = Some s ∧ resolvesTo (project g) typeName s
       | None => op_requestBody op = None
       end)
  ∧ ((inherited g (path headersRoute) = false →
        is_Some (operationOf (addRoute headersRoute g).2 headersRoute))
     ∧ ∀ op, operationOf (addRoute headersRoute g).2 headersRoute = Some op →
         match truthy (requestType headersRoute) with
         | Some typeName =>
             ∃ s, op_requestBody op = Some s
                  ∧ resolvesTo (project g) typeName s
         | None => op_requestBody op = None
         end).
Proof.
  intros g. split.
  - apply (request_body_follows_requestType createUserRoute g
             (addRoute createUserRoute g).2 ()).
    vm_compute. reflexivity.
  - apply (request_body_follows_requestType headersRoute g
             (addRoute headersRoute g).2 ()).
    vm_compute. reflexivity.
Defined.

(** X17. In the operation stored by a successful [addRoute] the
    parameters are the path parameters in order of appearance, then the
    query parameters in enumeration order, then the request headers in
    order; the [parameters] key is absent exactly when all three are empty.
    The operation is stored unless the path is a name found on
    [Object.prototype]. *)
Theorem parameters_are_ordered_and_omitted_when_empty
    (route : RouteDefinition) (g g' : OpenAPIGenerator) (u : ()) :
  addRoute route g = (Return u, g') →
  (inherited g (path route) = false → is_Some (operationOf g' route))
  ∧ ∀ op, operationOf g' route = Some op →
      default [] (op_parameters op)
      = ((pathParameter g route <$> extractPathParameters (path route))
         ++ (queryParameter <$> default [] (queryParameters route))
         ++ (headerParameter <$> default [] (headers route ≫= request)))%list
      ∧ (op_parameters op = None
         ↔ extractPathParameters (path route) = []
           ∧ default [] (queryParameters route) = []
           ∧ default [] (headers route ≫= request) = []).
Proof.
  intros Hret.
  destruct (addRoute_Return _ _ _ _ Hret)
    as (b & g1 & r & gm & _ & _ & _ & Hstored & Hop).
  split; [intros Hfresh; rewrite Hstored by done; by eexists|].
  intros op ->%Hop. simpl.
  assert (routeParameters g route
          = ((pathParameter g route <$> extractPathParameters (path route))
             ++ (queryParameter <$> default [] (queryParameters route))
             ++ (headerParameter <$> default [] (headers route ≫= request)))%list)
    as Hps.
  { unfold routeParameters.
    destruct (queryParameters route); destruct (headers route ≫= request);
      done. }
  split.
  - rewrite <- Hps. by destruct (routeParameters g route).
  - split.
    + intros Hnone.
      assert (routeParameters g route = []) as Hnil
        by by destruct (routeParameters g route).
      rewrite Hps in Hnil.
      apply app_eq_nil in Hnil as [H1 H23].
      apply app_eq_nil in H23 as [H2 H3].
      by apply fmap_nil_inv in H1, H2, H3.
    + intros (H1 & H2 & H3). by rewrite Hps, H1, H2, H3.
Qed.

Lemma parameters_are_ordered_and_omitted_when_empty_witness :
  let g := create None None [sourceB] in
  (inherited g (path headersRoute) = false →
     is_Some (operationOf (addRoute headersRoute g).2 headersRoute))
  ∧ ∀ op, operationOf (addRoute headersRoute g).2 headersRoute = Some op →
      default [] (op_parameters op)
      = ((pathParameter g headersRoute
            <$> extractPathParameters (path headersRoute))
         ++ (queryParameter <$> default [] (queryParameters headersRoute))
         ++ (headerParameter
               <$> default [] (headers headersRoute ≫= request)))%list
      ∧ (op_parameters op = None
         ↔ extractPathParameters (path headersRoute) = []
           ∧ default [] (queryParameters headersRoute) = []
           ∧ default [] (headers headersRoute ≫= request) = []).
Proof.
  intros g.
  apply (parameters_are_ordered_and_omitted_when_empty headersRoute g
           (addRoute headersRoute g).2 ()).
  vm_compute. reflexivity.
Defined.

(** The parameters of the witness route, in order. *)
Example headersRoute_parameter_order :
  match operationOf (addRoute headersRoute (create None None [sourceB])).2
                    headersRoute with
  | Some op => (λ p, (name p, in_ p)) <$> default [] (op_parameters op)
  | None => []
  end
  = [("userId", "path"); ("page", "query"); ("X-API-Version", "header")].
Proof. vm_compute. reflexivity. Qed.

Lemma addResponses_untyped (route : RouteDefinition)
    (acc : gmap string ResponseObject) (rs : list ResponseDefinition)
    (g : OpenAPIGenerator) :
  omap (λ r, truthy (rd_type r)) rs = [] →
  ∃ resps, addResponses route acc rs g = (Return resps, g).
Proof.
  revert acc. induction rs as [|r rs IH]; intros acc Hno; simpl in *.
  - by eexists.
  - unfold bind, addResponse at 1, bind.
    destruct (truthy (rd_type r)); [done|]. simpl. by apply IH.
Qed.

(** X16. A route that names no type (no or empty [requestType], no or
    empty response [type]s) is added whatever the project contains, and
    [components] is untouched; the operation, stored unless the path is a
    name found on [Object.prototype], has no request body, and all its
    response schemas are the empty schema [{}]. *)
Theorem route_without_types_always_succeeds
    (route : RouteDefinition) (g : OpenAPIGenerator) :
  referencedTypes route = [] →
  ∃ g',
    addRoute route g = (Return (), g')
    ∧ components (spec g') = components (spec g)
    ∧ (inherited g (path route) = false → is_Some (operationOf g' route))
    ∧ ∀ op, operationOf g' route = Some op →
        op_requestBody op = None
        ∧ (∀ k ro, op_responses op !! k = Some ro →
             ro_schema ro = emptySchema).
Proof.
  intros Hno. unfold referencedTypes in Hno.
  apply app_eq_nil in Hno as [Hreq Hresp].
  assert (truthy (requestType route) = None) as Hreq'
    by by destruct (truthy (requestType route)).
  destruct (addResponses_untyped route ∅ (responses route)
              (withPathItem route g) Hresp) as [resps Hr].
  assert (addRoute route g
          = (Return (),
             withOperation route
               (operationFor (withPathItem route g) route None resps)
               (withPathItem route g))) as Hret.
  { rewrite addRoute_unfold. unfold requestBodySchema. rewrite Hreq'.
    unfold ret. by rewrite Hr. }
  eexists. split; [exact Hret|].
  destruct (addRoute_Return _ _ _ _ Hret)
    as (b & g1 & r & gm & Hb & Hr' & _ & Hstored & Hop).
  unfold requestBodySchema in Hb. rewrite Hreq' in Hb. unfold ret in Hb.
  simplify_eq. split_and!.
  - unfold withOperation, withPathItem.
    destruct (paths (spec g) !! path route) eqn:Hitem.
    + by rewrite Hitem.
    + destruct (inherited g (path route)); simpl.
      * rewrite Hitem. by case_decide.
      * by rewrite lookup_insert_eq.
  - intros Hfresh. rewrite Hstored by done. by eexists.
  - intros op ->%Hop. split; [done|].
    intros k ro Hk. simpl in Hk.
    destruct (addResponses_Return _ _ _ _ _ _ Hr') as [_ Hentries].
    destruct (Hentries k ro Hk) as [Habs|(r0 & Hin & _ & _ & _ & Hs)].
    + by rewrite lookup_empty in Habs.
    + destruct (truthy (rd_type r0)) as [n|] eqn:Hn; [|done].
      exfalso.
      assert (n ∈ omap (λ r, truthy (rd_type r)) (responses route)) as Habs.
      { apply list_elem_of_omap. by exists r0. }
      rewrite Hresp in Habs. by apply elem_of_nil in Habs.
Qed.

Lemma route_without_types_always_succeeds_witness :
  ∃ g',
    addRoute testRoute (bareGenerator []) = (Return (), g')
    ∧ components (spec g') = components (spec (bareGenerator []))
    ∧ (inherited (bareGenerator []) (path testRoute) = false →
         is_Some (operationOf g' testRoute))
    ∧ ∀ op, operationOf g' testRoute = Some op →
        op_requestBody op = None
        ∧ (∀ k ro, op_responses op !! k = Some ro →
             ro_schema ro = emptySchema).
Proof.
  apply (route_without_types_always_succeeds testRoute (bareGenerator [])).
  reflexivity.
Defined.

Lemma resolvesTo_unique (sourceFiles : list SourceFile) (typeName : string)
    (s1 s2 : SchemaObject) :
  resolvesTo sourceFiles typeName s1 → resolvesTo sourceFiles typeName s2 →
  s1 = s2.
Proof.
  intros (a1 & Hf1 & Hs1) (a2 & Hf2 & Hs2). simplify_eq.
  specialize (Hs1 (create None None [])). rewrite Hs2 in Hs1. by simplify_eq.
Qed.

Lemma registered_step (typeName : string) (s : SchemaObject)
    (g : OpenAPIGenerator) (names : list string) :
  is_Some (registry g) → resolvesTo (project g) typeName s →
  registered g names →
  registered {| spec := registerSchema typeName s (spec g);
                project := project g;
                Object_prototype := Object_prototype g |} (typeName :: names)
  ∧ is_Some (registry {| spec := registerSchema typeName s (spec g);
                         project := project g;
                         Object_prototype := Object_prototype g |}).
Proof.
  intros [reg Hreg] Hres Hnames.
  assert (∀ n, registryEntry {| spec := registerSchema typeName s (spec g);
                                project := project g;
                                Object_prototype := Object_prototype g |} n
               = assign typeName s reg !! n) as Hentry.
  { intros n. by rewrite registryEntry_registry, registerSchema_registry, Hreg. }
  split.
  - intros n Hn Hproto. simpl. rewrite Hentry.
    destruct (decide (typeName = n)) as [<-|Hne].
    + exists s. split; [done|]. by apply lookup_assign_eq.
    + apply elem_of_cons in Hn as [->|Hn]; [done|].
      destruct (Hnames n Hn Hproto) as (s' & Hres' & He).
      exists s'. split; [done|].
      rewrite lookup_assign_ne by done.
      by rewrite registryEntry_registry, Hreg in He.
  - rewrite registerSchema_registry, Hreg. by eexists.
Qed.

Lemma addResponses_registers (route : RouteDefinition)
    (acc : gmap string ResponseObject) (rs : list ResponseDefinition)
    (g g' : OpenAPIGenerator) (resps : gmap string ResponseObject)
    (names : list string) :
  addResponses route acc rs g = (Return resps, g') →
  is_Some (registry g) → registered g names →
  project g' = project g
  ∧ is_Some (registry g')
  ∧ registered g' (reverse (omap (λ r, truthy (rd_type r)) rs) ++ names)%list.
Proof.
  revert acc g names. induction rs as [|r rs IH]; intros acc g names Hret Hreg Hn;
    simpl in *.
  - unfold ret in Hret. by simplify_eq.
  - unfold bind, addResponse at 1, bind in Hret.
    destruct (truthy (rd_type r)) as [n|] eqn:Htn; simpl in Hret.
    + destruct (extractTypeSchema n g) as [[s|x] g1] eqn:He; [|done].
      simpl in Hret.
      destruct (extractTypeSchema_Return _ _ _ _ He) as [Hres ->].
      destruct (registered_step n s g names Hreg Hres Hn) as [Hn1 Hreg1].
      destruct (IH _ _ _ Hret Hreg1 Hn1) as (Hp & Hreg2 & Hn2).
      split; [done|]. split; [done|].
      by rewrite reverse_cons, <- app_assoc.
    + by apply (IH _ _ _ Hret).
Qed.

(** The last statement of addRoute leaves the registry as it is. *)
Lemma registryEntry_withOperation (route : RouteDefinition)
    (op : OperationObject) (g : OpenAPIGenerator) (typeName : string) :
  registryEntry (withOperation route op g) typeName = registryEntry g typeName.
Proof.
  unfold withOperation, registryEntry.
  destruct (paths (spec g) !! path route); [done|]. by case_decide.
Qed.

(** X20. After a successful [addRoute] on a document with a schema
    registry, every type name the route refers to (request type and
    response types), the name [__proto__] apart, has as registry entry the
    schema it resolves to. *)
Theorem referenced_types_are_registered
    (route : RouteDefinition) (g g' : OpenAPIGenerator) (u : ()) :
  addRoute route g = (Return u, g') → is_Some (registry g) →
  ∀ typeName, typeName ∈ referencedTypes route → typeName ≠ "__proto__" →
    ∃ s, resolvesTo (project g) typeName s
         ∧ registryEntry g' typeName = Some s.
Proof.
  intros Hret Hreg.
  destruct (addRoute_Return _ _ _ _ Hret)
    as (b & g1 & r & gm & Hb & Hr & -> & _).
  assert (is_Some (registry (withPathItem route g))) as Hreg0.
  { unfold withPathItem. by repeat case_match. }
  assert (registered (withPathItem route g) []) as Hn0.
  { intros n Hn. by apply elem_of_nil in Hn. }
  assert (project g1 = project g
          ∧ is_Some (registry g1)
          ∧ registered g1 (option_list (truthy (requestType route))))
    as (Hp1 & Hreg1 & Hn1).
  { apply requestBodySchema_Return in Hb.
    destruct (truthy (requestType route)) as [n|].
    - destruct Hb as (s & _ & Hres & ->).
      destruct (registered_step n s _ [] Hreg0 Hres Hn0) as [? ?].
      split_and!; [simpl; apply project_withPathItem|done|done].
    - destruct Hb as [_ ->].
      split_and!; [apply project_withPathItem|done|done]. }
  destruct (addResponses_registers _ _ _ _ _ _ _ Hr Hreg1 Hn1)
    as (Hp2 & _ & Hn2).
  intros n Hn Hproto.
  destruct (Hn2 n) as (s & Hres & He); [|done|].
  { unfold referencedTypes in Hn. apply elem_of_app in Hn as [Hn|Hn].
    - apply elem_of_app. by right.
    - apply elem_of_app. left. by apply elem_of_reverse. }
  exists s. split; [by rewrite <- Hp1, <- Hp2|].
  by rewrite registryEntry_withOperation.
Qed.

Lemma referenced_types_are_registered_witness :
  let g := create None None [sourceB] in
  ∃ s, resolvesTo (project g) "User" s
       ∧ registryEntry (addRoute createUserRoute g).2 "User" = Some s.
Proof.
  intros g.
  apply (referenced_types_are_registered createUserRoute g
           (addRoute createUserRoute g).2 ()).
  - vm_compute. reflexivity.
  - by eexists.
  - simpl. by left.
  - done.
Defined.

Lemma addRoutes_app (routes1 routes2 : list RouteDefinition)
    (g : OpenAPIGenerator) :
  addRoutes (routes1 ++ routes2) g
  = match addRoutes routes1 g with
    | (Return _, g1) => addRoutes routes2 g1
    | (Throw x, g1) => (Throw x, g1)
    end.
Proof.
  unfold addRoutes. revert g. induction routes1 as [|r rs IH]; intros g; simpl.
  - done.
  - unfold bind. destruct (addRoute r g) as [[u|x] g1]; [apply IH|done].
Qed.

(** X21. [addRoutes] is not atomic and stops at the first route that
    fails: the exception of that route is thrown, the routes after it are
    not processed, the operations added by the routes before it stay, and
    the failing route adds none. *)
Theorem addRoutes_stops_at_first_failure
    (done_ rest : list RouteDefinition) (bad : RouteDefinition)
    (g g1 g2 : OpenAPIGenerator) (x : Exception) :
  addRoutes done_ g = (Return (), g1) →
  addRoute bad g1 = (Throw x, g2) →
  addRoutes (done_ ++ bad :: rest) g = (Throw x, g2)
  ∧ (∀ other, operationOf g2 other = operationOf g1 other)
  ∧ registryGrows (withPathItem bad g1) g2.
Proof.
  intros Hdone Hbad. split.
  - rewrite addRoutes_app, Hdone. unfold addRoutes. simpl. unfold bind.
    by rewrite Hbad.
  - destruct (addRoute_run bad g1)
      as (gm & Hgrow & [[y Hy]|(b & g3 & r & _ & _ & Hret)]); [|congruence].
    rewrite Hy in Hbad. simplify_eq. split; [|done].
    intros other. destruct Hgrow as (_ & _ & Hp & _).
    unfold operationOf at 1. rewrite Hp. apply operationOf_withPathItem.
Qed.

Lemma addRoutes_stops_at_first_failure_witness :
  let g := create None None [sourceB] in
  let g1 := (addRoutes [listUsersRoute] g).2 in
  let g2 := (addRoute ghostRoute g1).2 in
  addRoutes ([listUsersRoute] ++ ghostRoute :: [createUserRoute]) g
  = (Throw (Error (notFoundMessage "Ghost")), g2)
  ∧ (∀ other, operationOf g2 other = operationOf g1 other)
  ∧ registryGrows (withPathItem ghostRoute g1) g2.
Proof.
  intros g g1 g2.
  apply (addRoutes_stops_at_first_failure [listUsersRoute] [createUserRoute]
           ghostRoute g g1 g2 (Error (notFoundMessage "Ghost")));
    vm_compute; reflexivity.
Defined.

(** ** Placeholders of a path *)

Lemma extractPathParameters_placeholder_witness :
  extractPathParameters ("/users/" ++ String "{" ("userId" ++ String "}" "/posts"))
  = "userId" :: extractPathParameters "/posts".
Proof.
  apply (extractPathParameters_placeholder "/users/" "userId" "/posts").
  - unfold avoids. simpl. repeat constructor; discriminate.
  - discriminate.
  - unfold avoids. simpl. repeat constructor; discriminate.
Defined.

Lemma matchPlaceholders_unclosed (inside : option (list ascii)) (str : string) :
  avoids "}" str → matchPlaceholders inside str = [].
Proof.
  revert inside. induction str as [|c str IH]; intros inside Hs; [done|].
  apply Forall_cons in Hs as [Hc Hs]. simpl.
  destruct inside as [[|d seen]|]; rewrite ?decide_False by done;
    try case_decide; by apply IH.
Qed.

(** X24. A path without ['{'] or without ['}'] has no parameters: an
    unclosed brace, as in [/users/{userId], yields none. *)
Theorem path_without_closed_brace_has_no_parameters (p : string) :
  avoids "{" p ∨ avoids "}" p → extractPathParameters p = [].
Proof.
  unfold extractPathParameters. intros [Hp|Hp].
  - by rewrite matchPlaceholders_no_brace.
  - by rewrite matchPlaceholders_unclosed.
Qed.

Lemma path_without_closed_brace_has_no_parameters_witness :
  extractPathParameters "/users/{userId" = [].
Proof.
  apply (path_without_closed_brace_has_no_parameters "/users/{userId").
  right. unfold avoids. simpl. repeat constructor; discriminate.
Defined.

Lemma append_String_assoc (s1 s2 s3 : string) :
  (s1 ++ s2) ++ s3 = s1 ++ (s2 ++ s3).
Proof.
  induction s1 as [|c s1 IH]; [done|].
  change (String c ((s1 ++ s2) ++ s3) = String c (s1 ++ (s2 ++ s3))).
  by rewrite IH.
Qed.

Lemma avoids_rev (c : ascii) (seen : list ascii) :
  Forall (λ d, d ≠ c) seen → avoids c (string_of_list_ascii (rev seen)).
Proof.
  unfold avoids. rewrite list_ascii_of_string_of_list_ascii.
  rewrite !List.Forall_forall. intros H x Hx. apply H. by apply in_rev.
Qed.

Lemma string_of_list_ascii_nil (l : list ascii) :
  string_of_list_ascii l = "" → l = [].
Proof. by destruct l. Qed.

Lemma matchPlaceholders_sound (inside : option (list ascii)) (str m : string) :
  (∀ seen, inside = Some seen → Forall (λ d, d ≠ "}"%char) seen) →
  m ∈ matchPlaceholders inside str →
  ∃ n pre post,
    m = String "{" (n ++ "}") ∧ n ≠ "" ∧ avoids "}" n
    ∧ pending inside ++ str = pre ++ String "{" (n ++ String "}" post).
Proof.
  revert inside. induction str as [|c rest IH]; intros inside Hinv Hm.
  { by apply elem_of_nil in Hm. }
  simpl in Hm. destruct inside as [[|d seen]|].
  - (* just after '{' *)
    destruct (decide (c = "}"%char)) as [->|Hc].
    + destruct (IH None) as (n & pre & post & -> & Hn & Hav & Heq);
        [done|done|].
      exists n, (String "{" (String "}" pre)), post.
      split_and!; try done.
      exact (f_equal (λ s, String "{" (String "}" s)) Heq).
    + destruct (IH (Some [c])) as (n & pre & post & -> & Hn & Hav & Heq);
        [|done|].
      { intros ? [= <-]. by repeat constructor. }
      by exists n, pre, post.
  - (* inside a placeholder *)
    destruct (decide (c = "}"%char)) as [->|Hc].
    + apply elem_of_cons in Hm as [->|Hm].
      * exists (string_of_list_ascii (rev (d :: seen))), "", rest.
        split_and!; [done| |by apply avoids_rev, Hinv|done].
        intros Hnil%string_of_list_ascii_nil.
        apply (f_equal (@length _)) in Hnil. simpl in Hnil.
        rewrite length_app in Hnil. simpl in Hnil. lia.
      * destruct (IH None) as (n & pre & post & -> & Hn & Hav & Heq);
          [done|done|].
        exists n,
          (String "{" (string_of_list_ascii (rev (d :: seen))
                       ++ String "}" pre)), post.
        split_and!; try done.
        change (String "{" (string_of_list_ascii (rev (d :: seen))
                            ++ String "}" rest)
                = String "{" ((string_of_list_ascii (rev (d :: seen))
                               ++ String "}" pre)
                              ++ String "{" (n ++ String "}" post))).
        rewrite append_String_assoc.
        exact (f_equal (λ s, String "{" (string_of_list_ascii (rev (d :: seen))
                                         ++ String "}" s)) Heq).
    + destruct (IH (Some (c :: d :: seen)))
        as (n & pre & post & -> & Hn & Hav & Heq); [|done|].
      { intros ? [= <-]. constructor; [done|by apply Hinv]. }
      exists n, pre, post. split_and!; try done.
      rewrite <- Heq.
      change (String "{" (string_of_list_ascii (rev (d :: seen))
                          ++ String c rest)
              = String "{" (string_of_list_ascii (rev (d :: seen) ++ [c])
                            ++ rest)).
      by rewrite string_of_list_ascii_snoc.
  - (* outside *)
    destruct (decide (c = "{"%char)) as [->|Hc].
    + destruct (IH (Some [])) as (n & pre & post & -> & Hn & Hav & Heq);
        [|done|].
      { intros ? [= <-]. constructor. }
      by exists n, pre, post.
    + destruct (IH None) as (n & pre & post & -> & Hn & Hav & Heq);
        [done|done|].
      exists n, (String c pre), post. split_and!; try done.
      exact (f_equal (String c) Heq).
Qed.

Lemma extracted_names_from_path (p paramName : string) :
  paramName ∈ extractPathParameters p →
  paramName ≠ "" ∧ avoids "}" paramName
  ∧ ∃ pre post, p = pre ++ String "{" (paramName ++ String "}" post).
Proof.
  unfold extractPathParameters. intros Hin.
  apply list_elem_of_fmap in Hin as (m & -> & Hm).
  destruct (matchPlaceholders_sound None p m) as (n & pre & post & -> & Hn & Hav & Heq);
    [done|done|].
  rewrite slice_1_m1_braces. split_and!; try done. by exists pre, post.
Qed.

(** X23. Every name returned by [extractPathParameters] is non-empty,
    contains no ['}'] and occurs in the path between ['{'] and ['}']. *)
Theorem extracted_names_come_from_placeholders (p paramName : string) :
  paramName ∈ extractPathParameters p →
  paramName ≠ "" ∧ avoids "}" paramName
  ∧ ∃ pre post, p = pre ++ String "{" (paramName ++ String "}" post).
Proof. apply extracted_names_from_path. Qed.

Lemma extracted_names_come_from_placeholders_witness :
  "postId" ≠ "" ∧ avoids "}" "postId"
  ∧ ∃ pre post, "/users/{userId}/posts/{postId}"
                = pre ++ String "{" ("postId" ++ String "}" post).
Proof.
  apply (extracted_names_come_from_placeholders
           "/users/{userId}/posts/{postId}" "postId").
  vm_compute. right. left.
Defined.

(** ** Path parameters of the stored operation *)

(** Whatever the scan is in the middle of, it starts afresh after a
    ['}']. *)
Lemma matchPlaceholders_after_brace (inside : option (list ascii)) (str : string) :
  ∃ ms, ∀ rest,
    matchPlaceholders inside (str ++ String "}" rest)
    = (ms ++ matchPlaceholders None rest)%list.
Proof.
  revert inside. induction str as [|c str IH]; intros inside.
  - destruct inside as [[|d seen]|].
    + by exists [].
    + by eexists [_].
    + by exists [].
  - destruct inside as [[|d seen]|].
    + destruct (decide (c = "}"%char)) as [Hc|Hc].
      * destruct (IH None) as [ms Hms]. exists ms. intros rest.
        change (matchPlaceholders (Some []) (String c (str ++ String "}" rest))
                = (ms ++ matchPlaceholders None rest)%list).
        simpl. rewrite decide_True by done. apply Hms.
      * destruct (IH (Some [c])) as [ms Hms]. exists ms. intros rest.
        change (matchPlaceholders (Some []) (String c (str ++ String "}" rest))
                = (ms ++ matchPlaceholders None rest)%list).
        simpl. rewrite decide_False by done. apply Hms.
    + destruct (decide (c = "}"%char)) as [Hc|Hc].
      * destruct (IH None) as [ms Hms].
        exists (String "{" (string_of_list_ascii (rev (d :: seen)) ++ "}")
                  :: ms).
        intros rest.
        change (matchPlaceholders (Some (d :: seen))
                  (String c (str ++ String "}" rest))
                = String "{" (string_of_list_ascii (rev (d :: seen)) ++ "}")
                    :: (ms ++ matchPlaceholders None rest)%list).
        simpl. rewrite decide_True by done. by rewrite Hms.
      * destruct (IH (Some (c :: d :: seen))) as [ms Hms]. exists ms.
        intros rest.
        change (matchPlaceholders (Some (d :: seen))
                  (String c (str ++ String "}" rest))
                = (ms ++ matchPlaceholders None rest)%list).
        simpl. rewrite decide_False by done. apply Hms.
    + destruct (decide (c = "{"%char)) as [Hc|Hc].
      * destruct (IH (Some [])) as [ms Hms]. exists ms. intros rest.
        change (matchPlaceholders None (String c (str ++ String "}" rest))
                = (ms ++ matchPlaceholders None rest)%list).
        simpl. rewrite decide_True by done. apply Hms.
      * destruct (IH None) as [ms Hms]. exists ms. intros rest.
        change (matchPlaceholders None (String c (str ++ String "}" rest))
                = (ms ++ matchPlaceholders None rest)%list).
        simpl. rewrite decide_False by done. apply Hms.
Qed.

(** A placeholder [{n}], with [n] non-empty and free of ['}'], is
    extracted when the scan reaches its ['{'] afresh: no ['{'] stands
    between the start of the path, or an earlier ['}'], and that of the
    placeholder. *)
Lemma placeholder_is_extracted (pre1 pre2 n post : string) :
  pre1 = "" ∨ (∃ q, pre1 = q ++ "}") →
  avoids "{" pre2 → n ≠ "" → avoids "}" n →
  n ∈ extractPathParameters (pre1 ++ pre2 ++ String "{" (n ++ String "}" post)).
Proof.
  intros Hpre1 Hpre2 Hn Hav.
  assert (n ∈ extractPathParameters (pre2 ++ String "{" (n ++ String "}" post)))
    as Hhere.
  { unfold extractPathParameters.
    rewrite matchPlaceholders_placeholder by done.
    rewrite fmap_cons, slice_1_m1_braces. apply elem_of_cons. by left. }
  destruct Hpre1 as [->|[q ->]]; [done|].
  rewrite append_String_assoc.
  change ("}" ++ pre2 ++ String "{" (n ++ String "}" post))
    with (String "}" (pre2 ++ String "{" (n ++ String "}" post))).
  unfold extractPathParameters in *.
  destruct (matchPlaceholders_after_brace None q) as [ms ->].
  rewrite fmap_app. apply elem_of_app. by right.
Qed.

Lemma list_ascii_of_string_app (s1 s2 : string) :
  list_ascii_of_string (s1 ++ s2)
  = (list_ascii_of_string s1 ++ list_ascii_of_string s2)%list.
Proof.
  induction s1 as [|c s1 IH]; [done|].
  change (c :: list_ascii_of_string (s1 ++ s2)
          = c :: (list_ascii_of_string s1 ++ list_ascii_of_string s2)%list).
  by rewrite IH.
Qed.

Lemma avoids_app_brace (c : ascii) (pre rest : string) :
  ¬ avoids c (pre ++ String c rest).
Proof.
  unfold avoids. rewrite list_ascii_of_string_app, Forall_app. simpl.
  intros [_ Hrest]. by apply Forall_cons in Hrest as [Hc _].
Qed.

(** The names found on [Object.prototype] contain no brace, so a path with
    a placeholder always has its path item in the document. *)
Lemma inherited_avoids_brace (g : OpenAPIGenerator) (key : string) :
  inherited g key = true → avoids "{" key.
Proof.
  unfold inherited. intros [Hin|Hin]%orb_true_iff.
  - apply bool_decide_eq_true in Hin. unfold objectPrototypeNames in Hin.
    repeat (apply elem_of_cons in Hin as [->|Hin];
            [unfold avoids; simpl; repeat constructor; discriminate|]).
    by apply elem_of_nil in Hin.
  - apply bool_decide_eq_true in Hin as [op Hop].
    unfold storedOperation, methodOfKey in Hop.
    repeat case_decide; subst; try done;
      unfold avoids; simpl; repeat constructor; discriminate.
Qed.

Lemma placeholder_path_not_inherited (g : OpenAPIGenerator)
    (pre rest : string) :
  inherited g (pre ++ String "{" rest) = false.
Proof.
  destruct (inherited g (pre ++ String "{" rest)) eqn:Hinh; [|done].
  apply inherited_avoids_brace in Hinh. by apply avoids_app_brace in Hinh.
Qed.

(** C10, as stated, fails: the placeholder [{y}] occurs in the path
    [/a/{x{y}], yet the operation stored for the route has no parameter
    named [y]; its one path parameter is named [x{y]. *)
Lemma nested_brace_placeholder_is_not_a_parameter :
  let g' := (addRoute nestedBraceRoute (create None None [])).2 in
  path nestedBraceRoute = "/a/{x" ++ String "{" ("y" ++ String "}" "")
  ∧ (addRoute nestedBraceRoute (create None None [])).1 = Return ()
  ∧ ∃ op, operationOf g' nestedBraceRoute = Some op
      ∧ name <$> default [] (op_parameters op) = ["x{y"]
      ∧ ∀ p, p ∈ default [] (op_parameters op) → name p ≠ "y".
Proof.
  split; [done|]. split; [done|].
  eexists. split; [vm_compute; reflexivity|]. split; [done|].
  intros p Hp. simpl in Hp. apply list_elem_of_singleton in Hp as ->.
  discriminate.
Qed.

(** C10, amended. In the operation stored by a successful [addRoute],
    every placeholder [{n}] of the path whose name is non-empty and free of
    ['}'], and which no ['{'] separates from the start of the path or from
    the ['}'] before it, has a parameter named [n] with [in: 'path'],
    [required: true] and schema [{type: 'string'}], whatever the route
    declares under [parameters], which only feeds the description; and
    every parameter with [in: 'path'] is required, typed string and named
    by a text that stands between braces in the path. *)
Theorem path_placeholders_are_required_string_parameters
    (route : RouteDefinition) (g g' : OpenAPIGenerator) (u : ()) :
  addRoute route g = (Return u, g') →
  (∀ pre1 pre2 n post,
     path route = pre1 ++ pre2 ++ String "{" (n ++ String "}" post) →
     pre1 = "" ∨ (∃ q, pre1 = q ++ "}") →
     avoids "{" pre2 → n ≠ "" → avoids "}" n →
     ∃ op, operationOf g' route = Some op
       ∧ {| name := n; in_ := "path"; required := true;
            schema := typeSchema "string";
            po_description :=
              Some (orString (parameterDescription g route n)
                             (n ++ " parameter")) |}
         ∈ default [] (op_parameters op))
  ∧ (∀ op p, operationOf g' route = Some op →
       p ∈ default [] (op_parameters op) → in_ p = "path" →
       required p = true ∧ schema p = typeSchema "string"
       ∧ name p ≠ "" ∧ avoids "}" (name p)
       ∧ ∃ pre post,
           path route = pre ++ String "{" (name p ++ String "}" post)).
Proof.
  intros Hret.
  destruct (addRoute_Return _ _ _ _ Hret)
    as (b & g1 & r & gm & _ & _ & _ & Hstored & Hop).
  assert (default [] (op_parameters (operationFor g route b r))
          = routeParameters g route) as Hps.
  { simpl. by destruct (routeParameters g route). }
  split.
  - intros pre1 pre2 n post Hpath Hpre1 Hpre2 Hn Hav.
    exists (operationFor g route b r). split.
    + apply Hstored. rewrite Hpath, <- append_String_assoc.
      apply placeholder_path_not_inherited.
    + rewrite Hps. unfold routeParameters. apply elem_of_app. left.
      apply list_elem_of_fmap. exists n. split; [done|].
      rewrite Hpath. by apply placeholder_is_extracted.
  - intros op p ->%Hop Hp Hin. rewrite Hps in Hp.
    unfold routeParameters in Hp. rewrite !elem_of_app in Hp.
    destruct Hp as [Hp|[Hp|Hp]].
    + apply list_elem_of_fmap in Hp as (paramName & -> & Hname). simpl.
      destruct (extracted_names_from_path _ _ Hname) as (? & ? & ?).
      by split_and!.
    + destruct (queryParameters route); [|by apply elem_of_nil in Hp].
      apply list_elem_of_fmap in Hp as (entry & -> & _). discriminate.
    + destruct (headers route ≫= request); [|by apply elem_of_nil in Hp].
      apply list_elem_of_fmap in Hp as (header & -> & _). discriminate.
Qed.

Lemma path_placeholders_are_required_string_parameters_witness :
  let g := create None None [sourceB] in
  ∃ op, operationOf (addRoute userRoute g).2 userRoute = Some op
    ∧ {| name := "userId"; in_ := "path"; required := true;
         schema := typeSchema "string";
         po_description := Some "The ID of the user to retrieve" |}
      ∈ default [] (op_parameters op).
Proof.
  intros g.
  destruct (path_placeholders_are_required_string_parameters userRoute g
              (addRoute userRoute g).2 ()) as [Hemitted _].
  { vm_compute. reflexivity. }
  apply (Hemitted "" "/users/" "userId" "").
  - reflexivity.
  - by left.
  - unfold avoids. simpl. repeat constructor; discriminate.
  - discriminate.
  - unfold avoids. simpl. repeat constructor; discriminate.
Defined.

(** ** mapTypeToSchemaType *)

Lemma mapTypeToSchemaType_names (typeString : string) :
  mapTypeToSchemaType typeString ∈ schemaTypeNames.
Proof.
  unfold mapTypeToSchemaType, schemaTypeNames.
  repeat case_decide; by repeat constructor.
Qed.

Lemma mapTypeToSchemaType_fixes_names (n : string) :
  n ∈ schemaTypeNames → mapTypeToSchemaType n = n.
Proof.
  unfold schemaTypeNames. intros Hn.
  repeat (apply elem_of_cons in Hn as [->|Hn]; [reflexivity|]).
  by apply elem_of_nil in Hn.
Qed.

Lemma toLowerCaseChar_twice (c : ascii) :
  toLowerCaseChar (toLowerCaseChar c) = toLowerCaseChar c.
Proof. destruct c as [[] [] [] [] [] [] [] []]; reflexivity. Qed.

Lemma toLowerCase_twice (str : string) :
  toLowerCase (toLowerCase str) = toLowerCase str.
Proof.
  induction str as [|c str IH]; [done|]. simpl.
  by rewrite toLowerCaseChar_twice, IH.
Qed.

(** X25. [mapTypeToSchemaType] always answers one of number, string,
    boolean, array, object and null, ignores the case of ASCII letters, is
    idempotent, and is the identity on every name [getTypeString] returns. *)
Theorem mapTypeToSchemaType_normalises
    (typeString : string) (t : Type_) :
  mapTypeToSchemaType typeString ∈ schemaTypeNames
  ∧ mapTypeToSchemaType (toLowerCase typeString)
    = mapTypeToSchemaType typeString
  ∧ mapTypeToSchemaType (mapTypeToSchemaType typeString)
    = mapTypeToSchemaType typeString
  ∧ mapTypeToSchemaType (getTypeString t) = getTypeString t.
Proof.
  split_and!.
  - apply mapTypeToSchemaType_names.
  - unfold mapTypeToSchemaType. by rewrite toLowerCase_twice.
  - apply mapTypeToSchemaType_fixes_names, mapTypeToSchemaType_names.
  - apply mapTypeToSchemaType_fixes_names.
    unfold getTypeString, schemaTypeNames.
    repeat case_match; by repeat constructor.
Qed.

Example mapTypeToSchemaType_cases :
  mapTypeToSchemaType "Boolean" = "boolean"
  ∧ mapTypeToSchemaType "UNDEFINED" = "null"
  ∧ mapTypeToSchemaType "integer" = "string"
  ∧ mapTypeToSchemaType "" = "string".
Proof. by repeat split. Qed.
